(** * Covariance-matrix auto-selection (cobaya/cosmo_input/autoselect_covmat.py)

    A shallow embedding of the candidate-database cache and of the
    best-match selection heuristic, with the properties of the design
    document stated and proved over it.

    Conventions of the embedding
    - a Python [str] is a [string]; a character stands for a code point
      below 256, and [isspace] is Python's [str.isspace] on that range;
    - a Python [set] of strings is a [gset string];
    - scores are Python integers, modelled as [Z] (every score function of
      the module is a length or the negation of a length);
    - an exception is the [Raise] branch of [result]; [None] is [None]. *)

From Stdlib Require Import ZArith Ascii String.
From stdpp Require Import base option list gmap strings pretty.

Local Open Scope string_scope.
Local Open Scope Z_scope.

(** ** Exceptions *)

Inductive exn : Type :=
  | ValueError          (* np.max of a zero-size array *)
  | IndexError          (* list index out of range *)
  | FileNotFoundError.  (* os.listdir of a missing folder *)

Inductive result (A : Type) : Type :=
  | Ok (a : A)
  | Raise (e : exn).
Arguments Ok {A} a.
Arguments Raise {A} e.

#[global] Instance result_ret : MRet result := λ A a, Ok a.
#[global] Instance result_bind : MBind result := λ A B k r,
  match r with
  | Ok a => k a
  | Raise e => Raise e
  end.
#[global] Instance result_fmap : FMap result := λ A B f r,
  match r with
  | Ok a => Ok (f a)
  | Raise e => Raise e
  end.

(** ** Python string methods used by the module *)

Module Str.

(** [str.isspace] on one character (code points below 256). *)
Definition isspace (c : ascii) : bool :=
  let n := nat_of_ascii c in
  ((9 <=? n) && (n <=? 13) || (28 <=? n) && (n <=? 32)
   || (n =? 133) || (n =? 160))%nat.

(** [s.lstrip()] *)
Fixpoint lstrip (s : string) : string :=
  match s with
  | String c s' => if isspace c then lstrip s' else s
  | EmptyString => EmptyString
  end.

(** [s.rstrip()] *)
Fixpoint rstrip (s : string) : string :=
  match s with
  | String c s' =>
      match rstrip s' with
      | EmptyString => if isspace c then EmptyString else String c EmptyString
      | r => String c r
      end
  | EmptyString => EmptyString
  end.

(** [s.strip()] *)
Definition strip (s : string) : string := rstrip (lstrip s).

(** [s.lstrip(chars)] for a one-character [chars]. *)
Fixpoint lstrip_char (ch : ascii) (s : string) : string :=
  match s with
  | String c s' => if Ascii.eqb c ch then lstrip_char ch s' else s
  | EmptyString => EmptyString
  end.

(** [s.startswith(p)] *)
Fixpoint startswith (p s : string) : bool :=
  match p, s with
  | EmptyString, _ => true
  | String a p', String c s' => Ascii.eqb a c && startswith p' s'
  | String _ _, EmptyString => false
  end.

(** [s.endswith(p)] *)
Definition endswith (p s : string) : bool :=
  let n := String.length s in
  let k := String.length p in
  (k <=? n)%nat && String.eqb (substring (n - k) k s) p.

(** [s.split()]: maximal runs of non-space characters, in order. [cur] is
    the token under construction. *)
Fixpoint split_from (cur : string) (s : string) : list string :=
  match s with
  | EmptyString => match cur with EmptyString => [] | _ => [cur] end
  | String c s' =>
      if isspace c then
        match cur with
        | EmptyString => split_from EmptyString s'
        | _ => cur :: split_from EmptyString s'
        end
      else split_from (cur +:+ String c EmptyString) s'
  end.

Definition split (s : string) : list string := split_from EmptyString s.

(** [s.replace(a, b)] for one-character [a] and [b]. *)
Fixpoint replace (a b : ascii) (s : string) : string :=
  match s with
  | String c s' => String (if Ascii.eqb c a then b else c) (replace a b s')
  | EmptyString => EmptyString
  end.

End Str.

(** ** The fragment of [re] used by the module

    Patterns are sequences of atoms: a literal character (what [re.escape]
    produces for each character of its argument) or a character class. *)

Module Re.

Inductive atom : Type :=
  | Lit (c : ascii)
  | Class (cs : list ascii).

Definition regex := list atom.

Definition atom_matches (a : atom) (c : ascii) : bool :=
  match a with
  | Lit c' => Ascii.eqb c' c
  | Class cs => existsb (Ascii.eqb c) cs
  end.

(** [re.escape(s)]: every character of [s] matches itself only. *)
Fixpoint escape (s : string) : regex :=
  match s with
  | String c s' => Lit c :: escape s'
  | EmptyString => []
  end.

(** The pattern matches a prefix of [s]. *)
Fixpoint match_here (r : regex) (s : string) : bool :=
  match r with
  | [] => true
  | a :: r' =>
      match s with
      | String c s' => atom_matches a c && match_here r' s'
      | EmptyString => false
      end
  end.

(** [r.search(s)] as a truth value: the pattern matches at some position. *)
Fixpoint search (r : regex) (s : string) : bool :=
  match_here r s ||
  match s with
  | String _ s' => search r s'
  | EmptyString => false
  end.

End Re.

(** ** numpy reductions on integer arrays *)

Module Np.

(** [np.max(scores)]; raises on a zero-size array. *)
Definition max (scores : list Z) : result Z :=
  match scores with
  | [] => Raise ValueError
  | s :: rest => Ok (foldl Z.max s rest)
  end.

(** [np.argwhere(mask).T[0]]: the indices at which [mask] holds, ascending. *)
Fixpoint argwhere_from (i : nat) (mask : list bool) : list nat :=
  match mask with
  | [] => []
  | b :: mask' =>
      if b then i :: argwhere_from (S i) mask' else argwhere_from (S i) mask'
  end.

Definition argwhere (mask : list bool) : list nat := argwhere_from 0 mask.

End Np.

(** [covmats[i]] *)
Definition getitem {A} (l : list A) (i : nat) : result A :=
  match l !! i with
  | Some x => Ok x
  | None => Raise IndexError
  end.

(** [[f(x) for x in l]] for an [f] that may raise. *)
Fixpoint comprehension {A B} (f : A → result B) (l : list A) : result (list B) :=
  match l with
  | [] => Ok []
  | x :: l' => y ← f x; ys ← comprehension f l'; Ok (y :: ys)
  end.

(** ** The ranking step: [get_best_score] *)

Definition get_best_score {A} (covmats : list A) (score_func : A → Z)
    (min_score : option Z) : result (list A) :=
  let scores := score_func <$> covmats in
  below ← match min_score with
          | Some m => mx ← Np.max scores; Ok (mx <=? m)
          | None => Ok false
          end;
  if (below : bool) then Ok []
  else
    mx ← Np.max scores;
    let i_max := Np.argwhere ((λ s, s =? mx) <$> scores) in
    comprehension (getitem covmats) i_max.

(** ** Candidate records

    One entry of the database: the dict [{"folder": ..., "name": ...,
    "params": ...}] built by the directory scan. *)

Record Covmat : Type := mkCovmat {
  folder : string;
  name : string;
  params : list string;
}.

#[global] Instance Covmat_eq_dec : EqDecision Covmat.
Proof. solve_decision. Defined.

(** [covmat.copy()] on the value of a record: a new dict with the same
    three items. *)
Definition dict_copy (c : Covmat) : Covmat :=
  {| folder := folder c; name := name c; params := params c |}.

(** A target description ([params_info] or [likelihoods_info]): the keys of
    the dict in insertion order, each with the list that
    [str_to_list(info.get("renames", []))], respectively
    [str_to_list((info or {}).get("aliases", []))], evaluates to. *)
Definition targets := list (string * list string).

(** The set of all keys of [d] and of all their aliases: the chained
    lists [[p] + aliases], for [p, info] in [d.items()], as a [set]. *)
Definition alias_set (d : targets) : gset string :=
  list_to_set (concat ((λ e, e.1 :: e.2) <$> d)).

(** [delimiters]: the class of the two characters [_] and [.] *)
Definition delimiters : Re.regex := [Re.Class ["_"; "."]%char].

(** [re.compile(delimiters + re.escape(_like) + delimiters)] *)
Definition like_regexp (_like : string) : Re.regex :=
  (delimiters ++ Re.escape _like ++ delimiters)%list.

(** ** The ranking stages of [get_best_covmat_ext]

    The stages only read the name and the declared parameters of a
    candidate and hand candidates on unchanged, so they are stated for any
    candidate type [A] with these two projections: record values below,
    references to record objects in the object-level model. *)

Section Stages.
Context {A : Type}.
Variable name_of : A → string.
Variable params_of : A → list string.
Variable params_info : targets.
Variable likelihoods_info : targets.

(** The first [choice] drawn from [np.random.default_rng(seed)] over
    [range(n)]. Every function of the seed and of [n] with values below
    [n] is [rng_integers seed n mod n] for some [rng_integers]. *)
Variable rng_integers : Z → nat → nat.

Definition params_renames : gset string := alias_set params_info.
Definition likes_renames : gset string := alias_set likelihoods_info.
Definition likes_regexps : list Re.regex :=
  like_regexp <$> elements likes_renames.

Definition score_params (covmat : A) : Z :=
  Z.of_nat (size (list_to_set (params_of covmat) ∩ params_renames)).

Definition score_likes (covmat : A) : Z :=
  Z.of_nat (length (filter (λ r, Re.search r (name_of covmat) = true)
                           likes_regexps)).

Definition score_simpler_params (covmat : A) : Z :=
  - Z.of_nat (length (params_of covmat)).

Definition score_simpler_name (covmat : A) : Z :=
  - Z.of_nat (length (Str.split
      (Str.replace "-" " " (Str.replace "_" " " (name_of covmat))))).

(** [np.random.default_rng(random_state).choice(range(n))]. With
    [random_state = None] the generator is seeded from fresh operating
    system entropy, [entropy] here. *)
Definition rng_choice (random_state : option Z) (entropy : Z) (n : nat)
    : result nat :=
  match n with
  | O => Raise ValueError
  | _ => Ok (rng_integers (default entropy random_state) n `mod` n)%nat
  end.

(** The survivors of the two tie-breaks, given the parameter-matched set. *)
Definition narrow (best_p : list A) : result (list A) :=
  best_p_l ← get_best_score best_p score_likes None;
  best_p_l_sp ← get_best_score best_p_l score_simpler_params None;
  get_best_score best_p_l_sp score_simpler_name None.

(** The body of [get_best_covmat_ext] once the database is loaded, up to
    the final copy: the chosen element of the database, or [None]. *)
Definition choose (covmats_database : list A) (random_state : option Z)
    (entropy : Z) : result (option A) :=
  match covmats_database with
  | [] => Ok None
  | _ =>
      best_p ← get_best_score covmats_database score_params (Some 0);
      match best_p with
      | [] => Ok None
      | _ =>
          best_p_l_sp_sn ← narrow best_p;
          i ← rng_choice random_state entropy (length best_p_l_sp_sn);
          best ← getitem best_p_l_sp_sn i;
          Ok (Some best)
      end
  end.

End Stages.

(** ** The database cache: [get_covmat_database_at_paths] *)

(** Modelled from the spec: the constant [Extension.covmat] of
    [cobaya.conventions], which is not part of the sources at hand; the
    design document names the extension [.covmat]. *)
Definition Extension_covmat : string := ".covmat".

(** What [open(path, encoding="utf-8-sig")] followed by [readline()] gives
    for a directory entry. *)
Inductive file : Type :=
  | Unreadable                     (* open or decoding raises *)
  | Text (first_line : string).    (* the first line, as read *)

(** What reading and unpickling the persisted database gives; a missing file
    is an absent key of [cache_files]. *)
Inductive blob : Type :=
  | Corrupt                              (* pickle.load raises *)
  | Pickled (covmat_database : list Covmat).

(** The state the module reads and writes: the directories ([os.listdir]
    with, for each name, what opening it gives; an absent key is a folder
    that does not exist), the cache files by fingerprint, and the global
    [_loaded_covmats_database]. *)
Record World : Type := mkWorld {
  listdir : gmap string (list (string * file));
  cache_files : gmap string blob;
  loaded_covmats_database : gmap string (list Covmat);
}.

(** The header check of the scan: [Some params] when the [try] block goes
    through, [None] when it raises. *)
Definition read_params (f : file) : option (list string) :=
  match f with
  | Unreadable => None
  | Text header =>
      if Str.startswith "#" (Str.strip header)
      then Some (Str.split (Str.lstrip_char "#" (Str.strip header)))
      else None
  end.

(** The inner loop of the scan over the entries of one folder. *)
Fixpoint scan_folder (folder_full : string) (entries : list (string * file))
    (covmat_database : list Covmat) : list Covmat :=
  match entries with
  | [] => covmat_database
  | (filename, f) :: entries' =>
      match read_params f with
      | None => scan_folder folder_full entries' covmat_database
      | Some params =>
          scan_folder folder_full entries'
            (covmat_database ++
               [{| folder := folder_full; name := filename; params := params |}])
      end
  end.

(** The outer loop of the scan. *)
Fixpoint scan_folders (ls : gmap string (list (string * file)))
    (installed_folders : list string) (covmat_database : list Covmat)
    : result (list Covmat) :=
  match installed_folders with
  | [] => Ok covmat_database
  | folder_full :: rest =>
      match ls !! folder_full with
      | None => Raise FileNotFoundError
      | Some entries =>
          scan_folders ls rest (scan_folder folder_full entries covmat_database)
      end
  end.

(** [num_files]: the number of names ending in the extension, over all
    folders; [None] when a folder cannot be listed. *)
Fixpoint count_covmat_files (ls : gmap string (list (string * file)))
    (installed_folders : list string) : option nat :=
  match installed_folders with
  | [] => Some O
  | folder :: rest =>
      entries ← ls !! folder;
      n ← count_covmat_files ls rest;
      Some (length (filter (λ e, Str.endswith Extension_covmat e.1 = true)
                           entries) + n)%nat
  end.

Section Cache.
(** [hashlib.md5(str(installed_folders).encode('utf8')).hexdigest()] *)
Variable fingerprint : list string → string.

(** The [try] block reading the persisted database: [Some] when it
    reaches its [return], [None] when anything in it raises (the [open],
    the [pickle.load], a listing, or the [assert] on the count). *)
Definition read_cache_file (w : World) (installed_folders : list string)
    : option (list Covmat) :=
  b ← cache_files w !! fingerprint installed_folders;
  match b with
  | Corrupt => None
  | Pickled covmat_database =>
      num_files ← count_covmat_files (listdir w) installed_folders;
      if decide (num_files = length covmat_database)
      then Some covmat_database else None
  end.

(** The part after the comment "Create it (again)". Writing the cache
    file is taken to succeed (the cache directory comes from
    [get_cache_path], outside this module). *)
Definition recreate (w : World) (installed_folders : list string)
    (cached : bool) : result (list Covmat * World) :=
  covmat_database ← scan_folders (listdir w) installed_folders [];
  if cached then
    let _hash := fingerprint installed_folders in
    Ok (covmat_database,
        {| listdir := listdir w;
           cache_files := <[_hash := Pickled covmat_database]> (cache_files w);
           loaded_covmats_database :=
             <[_hash := covmat_database]> (loaded_covmats_database w) |})
  else Ok (covmat_database, w).

(** The function on a state: the database and the state it leaves. The
    only statement that can raise outside a [try] is the [os.listdir] of
    the scan, which precedes every write, so a call that raises leaves
    the state as it found it. *)
Definition get_covmat_database_at_paths (w : World)
    (installed_folders : list string) (cached : bool)
    : result (list Covmat * World) :=
  let _hash := fingerprint installed_folders in
  if cached then
    match loaded_covmats_database w !! _hash with
    | Some (c :: cs) => Ok (c :: cs, w)
    | _ =>
        match read_cache_file w installed_folders with
        | Some covmat_database =>
            Ok (covmat_database,
                {| listdir := listdir w;
                   cache_files := cache_files w;
                   loaded_covmats_database :=
                     <[_hash := covmat_database]> (loaded_covmats_database w) |})
        | None => recreate w installed_folders cached
        end
    end
  else recreate w installed_folders cached.

(** The in-process map has no usable entry for the folders. *)
Definition in_process_miss (w : World) (dirs : list string) : Prop :=
  loaded_covmats_database w !! fingerprint dirs = None
  ∨ loaded_covmats_database w !! fingerprint dirs = Some [].

(** The cache file unpickles to a list with as many records as there are
    names with the extension in the folders. *)
Definition cache_file_valid (w : World) (dirs : list string) : Prop :=
  ∃ l, cache_files w !! fingerprint dirs = Some (Pickled l)
       ∧ count_covmat_files (listdir w) dirs = Some (length l).

(** ** The selector on record values: [get_best_covmat_ext] *)

Variable rng_integers : Z → nat → nat.

Definition get_best_covmat_ext (w : World) (covmat_dirs : list string)
    (params_info likelihoods_info : targets) (random_state : option Z)
    (cached : bool) (entropy : Z) : result (option Covmat * World) :=
  '(covmats_database, w') ← get_covmat_database_at_paths w covmat_dirs cached;
  best ← choose name params params_info likelihoods_info rng_integers
           covmats_database random_state entropy;
  Ok (dict_copy <$> (best : option Covmat), w').

End Cache.

(** ** Record objects and references

    The database is a list of references to dict objects; [.copy()] makes
    a new dict object holding the same items, so the list object under
    ["params"] stays shared between a record and its copy. *)

Definition loc := positive.

Inductive value : Type :=
  | VStr (s : string)
  | VList (l : loc).   (* a reference to a list of strings *)

Record Heap : Type := mkHeap {
  dicts : gmap loc (gmap string value);
  lists : gmap loc (list string);
}.

(** A reference of the database with what [covmat["name"]] and
    [covmat["params"]] read through it. *)
Record entry : Type := mkEntry {
  ref : loc;
  ref_name : string;
  ref_params : list string;
}.

Definition read_entry (h : Heap) (l : loc) : option entry :=
  d ← dicts h !! l;
  n ← d !! "name";
  p ← d !! "params";
  match n, p with
  | VStr n, VList pl => ps ← lists h !! pl; Some (mkEntry l n ps)
  | _, _ => None
  end.



(** [l.append(x)] on the list object at [pl]. *)
Definition list_append (h : Heap) (pl : loc) (x : string) : Heap :=
  {| dicts := dicts h; lists := alter (λ ps, (ps ++ [x])%list) pl (lists h) |}.

(** [covmat.copy()]: a dict object at an unused address, with the items of
    the dict at [l]. *)
Definition copy_object (h : Heap) (l : loc) : option (loc * Heap) :=
  d ← dicts h !! l;
  let r := fresh (dom (dicts h)) in
  Some (r, {| dicts := <[r := d]> (dicts h); lists := lists h |}).

Section Objects.
Variable rng_integers : Z → nat → nat.


End Objects.

(** ** The package folders: [get_covmat_package_folders],
    [get_covmat_database] *)

(** Modelled from the spec: the templates of [covmat_folders] are a field
    named by the constant [packages_path_input] of [cobaya.conventions]
    (not part of the sources at hand) followed by a fixed relative
    subpath; the list holds the text after the field. *)
Definition covmat_folders : list string :=
  ["/data/planck_supp_data_and_covmats/covmats/";
   "/data/bicep_keck_2018/BK18_cosmomc/planck_covmats/"].

(** [folder.format(packages_path_input=packages_path)] for such a template:
    the value of the field, then the text after it. *)
Definition format_folder (folder packages_path : string) : string :=
  packages_path +:+ folder.

Section Packages.
(** [os.sep] *)
Variable os_sep : ascii.
(** [os.path.exists] *)
Variable path_exists : string → bool.

(** The loop of [get_covmat_package_folders]. *)
Fixpoint package_folders_loop (packages_path : string) (folders : list string)
    (install_folders : list string) : list string :=
  match folders with
  | [] => install_folders
  | folder :: rest =>
      let folder_full :=
        Str.replace "/" os_sep (format_folder folder packages_path) in
      if path_exists folder_full
      then package_folders_loop packages_path rest
             (install_folders ++ [folder_full])
      else package_folders_loop packages_path rest install_folders
  end.

Definition get_covmat_package_folders (packages_path : string) : list string :=
  package_folders_loop packages_path covmat_folders [].

Variable fingerprint : list string → string.

Definition get_covmat_database (w : World) (packages_path : string)
    (cached : bool) : result (list Covmat * World) :=
  let install_folders := get_covmat_package_folders packages_path in
  get_covmat_database_at_paths fingerprint w install_folders cached.

End Packages.

(** ** The matrix of the chosen record: [get_best_covmat] *)

(** [l.index(p)]: the first position of [p]; raises when [p] is absent. *)
Fixpoint list_index (l : list string) (p : string) : result nat :=
  match l with
  | [] => Raise ValueError
  | q :: l' => if decide (q = p) then Ok O else S <$> list_index l' p
  end.

(** [covmat[indices][:, indices]] on a two-dimensional array given by its
    rows: the rows at [indices], then of each the entries at [indices]. *)
Definition submatrix {T} (covmat : list (list T)) (indices : list nat)
    : result (list (list T)) :=
  rows ← comprehension (getitem covmat) indices;
  comprehension (λ row, comprehension (getitem row) indices) rows.

(** What [get_best_covmat] can end with besides a value: the [LoggedError]
    it raises itself, or an exception from below. *)
Inductive failure : Type :=
  | LoggedError
  | Exception (e : exn).

(** The dict [get_best_covmat] returns: the folder and the name of the
    chosen file, the translation of the sampled parameters (as the items
    of the dict, in order), and the matrix cut to them. *)
Record BestCovmat (T : Type) : Type := mkBestCovmat {
  best_folder : string;
  best_name : string;
  best_params : list (string * string);
  best_covmat : list (list T);
}.
Arguments mkBestCovmat {T}.
Arguments best_folder {T}.
Arguments best_name {T}.
Arguments best_params {T}.
Arguments best_covmat {T}.

(** The last four statements of [get_best_covmat], on the chosen record,
    the array read from its file and the translation. *)
Definition with_covmat {T} (covmat_data : Covmat) (covmat : list (list T))
    (params_in_covmat : list (string * string)) : result (BestCovmat T) :=
  indices ← comprehension (list_index (params covmat_data))
              (snd <$> params_in_covmat);
  sliced ← submatrix covmat indices;
  Ok {| best_folder := folder covmat_data;
        best_name := name covmat_data;
        best_params := params_in_covmat;
        best_covmat := sliced |}.

Section BestCovmat.
Context {T Info : Type}.
Variable os_sep : ascii.
Variable path_exists : string → bool.
Variable fingerprint : list string → string.
Variable rng_integers : Z → nat → nat.
(** [info.get(packages_path_input)] *)
Variable info_packages_path : Info → option string.
(** [update_info(info, strict=False)] followed by the loop that drops the
    parameters that are not sampled: the sampled parameters and the
    likelihoods, as the selector reads them. Both functions are outside
    the sources at hand. *)
Variable update_info : Info → result (targets * targets).
(** [get_translated_params], outside the sources at hand: the items of
    the dict it returns. *)
Variable get_translated_params : targets → list string → list (string * string).
(** [np.atleast_2d(np.loadtxt(os.path.join(folder, name)))] *)
Variable loadtxt : string → string → result (list (list T)).

(** [x or y] on two optional strings: the first that is neither [None]
    nor empty. *)
Definition or_else (x y : option string) : option string :=
  match x with
  | Some (String c s) => x
  | _ => y
  end.

Definition lift {A} (r : result A) (k : A → failure + option (BestCovmat T) * World)
    : failure + option (BestCovmat T) * World :=
  match r with
  | Ok a => k a
  | Raise e => inl (Exception e)
  end.

Definition get_best_covmat (w : World) (info : Info)
    (packages_path : option string) (cached : bool) (random_state : option Z)
    (entropy : Z) : failure + option (BestCovmat T) * World :=
  match or_else packages_path (info_packages_path info) with
  | Some (String c s) =>
      let packages_path := String c s in
      lift (update_info info) (λ '(info_sampled_params, likelihood),
      lift (get_best_covmat_ext fingerprint rng_integers w
              (get_covmat_package_folders os_sep path_exists packages_path)
              info_sampled_params likelihood random_state cached entropy)
           (λ '(covmat_data, w'),
      match covmat_data with
      | None => inr (None, w')
      | Some covmat_data =>
          lift (loadtxt (folder covmat_data) (name covmat_data)) (λ covmat,
          let params_in_covmat :=
            get_translated_params info_sampled_params (params covmat_data) in
          lift (with_covmat covmat_data covmat params_in_covmat) (λ best,
          inr (Some best, w')))
      end))
  | _ => inl LoggedError
  end.

End BestCovmat.

(** ** Helpers of [grid_tables] (cobaya/grid_tools/gridtables.py) *)

(** [texEscapeText]: [string.replace] of every underscore by the text of
    the LaTeX command in braces. *)
Fixpoint texEscapeText (s : string) : string :=
  match s with
  | String c s' =>
      if Ascii.eqb c "_" then "{\textunderscore}" +:+ texEscapeText s'
      else String c (texEscapeText s')
  | EmptyString => EmptyString
  end.

(** [outfile[-4:]] *)
Definition last4 (s : string) : string :=
  substring (String.length s - 4) 4 s.

(** The name of the file written for one [limit]: the first statements of
    the loop over [limits]. *)
Definition outfile_of (latex_filename : string) (all_limits : bool)
    (limit : Z) : string :=
  let outfile := latex_filename in
  let outfile :=
    if all_limits then outfile +:+ "_limit" +:+ pretty limit else outfile in
  if negb (String.eqb (last4 outfile) ".tex") then outfile +:+ ".tex"
  else outfile.

(** [limits] *)
Definition limits_of (all_limits : bool) (limit : Z) : list Z :=
  if all_limits then [1; 2; 3] else [limit].

(** ** Auxiliary definitions for the statements *)

(** The candidates of [l] whose score is [mx], in the order of [l]. *)
Definition with_score {A} (f : A → Z) (mx : Z) (l : list A) : list A :=
  filter (λ x, f x = mx) l.

Definition newline : string := String "010"%char EmptyString.

(** Record A and record B of the scenario, in a folder [d]. *)
Definition record_A (d : string) : Covmat :=
  mkCovmat d "planck_lowl.covmat" ["x"; "y"].
Definition record_B (d : string) : Covmat :=
  mkCovmat d "planck_lowl_highl.covmat" ["x"; "y"; "z"].

(** Target parameters [x] and [y] without renames, target likelihood
    [lowl] without aliases. *)
Definition scenario_params : targets := [("x", []); ("y", [])].
Definition scenario_likes : targets := [("lowl", [])].

(** A folder holding the two files of the scenario, and nothing cached. *)
Definition scenario_world : World :=
  {| listdir :=
       {[ "covmats/" :=
            [("planck_lowl_highl.covmat", Text ("# x y z" +:+ newline));
             ("planck_lowl.covmat", Text ("# x y" +:+ newline))] ]};
     cache_files := ∅;
     loaded_covmats_database := ∅ |}.

(** The records the scan makes of the entries of one folder. *)
Definition records_of (folder_full : string) (entries : list (string * file))
    : list Covmat :=
  omap (λ e, mkCovmat folder_full e.1 <$> read_params e.2) entries.

(** The header of the scenario of the design document. *)
Definition header_a_b_c : string := "# a b c" +:+ newline.

Definition scan_example : gmap string (list (string * file)) :=
  {[ "covmats/" := [("good.covmat", Text header_a_b_c);
                    ("bad.covmat", Text ("a b c" +:+ newline))] ]}.

Definition is_delimiter (c : ascii) : Prop := c = "_"%char ∨ c = "."%char.

(** [os.remove(os.path.join(folder, filename))] *)
Definition remove_file (w : World) (folder_full filename : string) : World :=
  {| listdir := alter (filter (λ e, e.1 ≠ filename)) folder_full (listdir w);
     cache_files := cache_files w;
     loaded_covmats_database := loaded_covmats_database w |}.

Definition is_covmat_name (e : string * file) : Prop :=
  Str.endswith Extension_covmat e.1 = true.

#[global] Instance is_covmat_name_dec e : Decision (is_covmat_name e).
Proof. unfold is_covmat_name. apply _. Defined.

(** A folder with two matrix files, as a first process finds it. *)
Definition two_files_world : World :=
  {| listdir :=
       {[ "covmats/" := [("a.covmat", Text ("# x y" +:+ newline));
                         ("b.covmat", Text ("# x z" +:+ newline))] ]};
     cache_files := ∅;
     loaded_covmats_database := ∅ |}.

Definition record_a : Covmat := mkCovmat "covmats/" "a.covmat" ["x"; "y"].
Definition record_b : Covmat := mkCovmat "covmats/" "b.covmat" ["x"; "z"].

(** The same folder with the cache file of an earlier process, and the
    in-process map still empty. *)
Definition second_process_world : World :=
  {| listdir := listdir two_files_world;
     cache_files := {[ "0" := Pickled [record_a; record_b] ]};
     loaded_covmats_database := ∅ |}.


(** The order the four stages implement, on the scores of two candidates:
    more shared parameters first, then more likelihood matches, then
    fewer declared parameters, then fewer words in the file name. *)
Definition ranks_no_higher {A} (name_of : A → string)
    (params_of : A → list string) (params_info likelihoods_info : targets)
    (c' c : A) : Prop :=
  let sp := score_params params_of params_info in
  let sl := score_likes name_of likelihoods_info in
  let ssp := score_simpler_params params_of in
  let ssn := score_simpler_name name_of in
  sp c' < sp c
  ∨ (sp c' = sp c
     ∧ (sl c' < sl c
        ∨ (sl c' = sl c
           ∧ (ssp c' < ssp c
              ∨ (ssp c' = ssp c ∧ ssn c' ≤ ssn c))))).

(** The two candidates have the same four scores. *)
Definition same_rank {A} (name_of : A → string)
    (params_of : A → list string) (params_info likelihoods_info : targets)
    (c' c : A) : Prop :=
  score_params params_of params_info c' = score_params params_of params_info c
  ∧ score_likes name_of likelihoods_info c'
    = score_likes name_of likelihoods_info c
  ∧ score_simpler_params params_of c' = score_simpler_params params_of c
  ∧ score_simpler_name name_of c' = score_simpler_name name_of c.

(** The four lists of survivors behind a selection. *)
Definition survivors {A} (name_of : A → string) (params_of : A → list string)
    (params_info likelihoods_info : targets) (db bp bl bs bn : list A)
    : Prop :=
  get_best_score db (score_params params_of params_info) (Some 0) = Ok bp
  ∧ get_best_score bp (score_likes name_of likelihoods_info) None = Ok bl
  ∧ get_best_score bl (score_simpler_params params_of) None = Ok bs
  ∧ get_best_score bs (score_simpler_name name_of) None = Ok bn
  ∧ bn ≠ [].

(** The first line of the entry passes the header check of the scan. *)
Definition has_header (e : string * file) : Prop := is_Some (read_params e.2).

#[global] Instance has_header_dec e : Decision (has_header e).
Proof. unfold has_header. apply _. Defined.

(** A package path with one of the two folders installed. *)
Definition packages_world : World :=
  {| listdir :=
       {[ "pkg/data/planck_supp_data_and_covmats/covmats/" :=
            [("base.covmat", Text ("# x y" +:+ newline))] ]};
     cache_files := ∅;
     loaded_covmats_database := ∅ |}.

(** [covmat[a][b]], when both indices are in range. *)
Definition cell {T} (covmat : list (list T)) (a b : nat) : option T :=
  row ← covmat !! a; row !! b.

(** A header of three names, a symmetric matrix for it, and a translation
    of two sampled parameters, the second through a rename. *)
Definition example_covmat_data : Covmat :=
  mkCovmat "covmats/" "m.covmat" ["a"; "b"; "c"].
Definition example_matrix : list (list Z) :=
  [[1; 2; 3]; [2; 4; 5]; [3; 5; 6]].
Definition example_translation : list (string * string) :=
  [("c", "c"); ("x", "a")].
Definition example_best : BestCovmat Z :=
  mkBestCovmat "covmats/" "m.covmat" example_translation [[6; 3]; [3; 1]].

(** A character of a string. *)
Fixpoint char_in (ch : ascii) (s : string) : Prop :=
  match s with
  | String c s' => ch = c ∨ char_in ch s'
  | EmptyString => False
  end.

(** * Properties *)

(** ** The error monad *)

Lemma bind_Ok {A B} (a : A) (k : A → result B) : Ok a ≫= k = k a.
Proof. reflexivity. Qed.

Lemma bind_Raise {A B} (e : exn) (k : A → result B) : Raise e ≫= k = Raise e.
Proof. reflexivity. Qed.

(** ** [np.max] and the index comprehension *)

Lemma foldl_max_ge (l : list Z) (a : Z) : a ≤ foldl Z.max a l.
Proof.
  revert a. induction l as [|x l IH]; intros a; simpl; [lia|].
  specialize (IH (Z.max a x)). lia.
Qed.

Lemma foldl_max_upper (l : list Z) (a y : Z) : y ∈ l → y ≤ foldl Z.max a l.
Proof.
  revert a. induction l as [|x l IH]; intros a Hy; simpl.
  - by apply elem_of_nil in Hy.
  - apply elem_of_cons in Hy as [->|Hy]; [|by apply IH].
    pose proof (foldl_max_ge l (Z.max a x)). lia.
Qed.

Lemma foldl_max_attained (l : list Z) (a : Z) :
  foldl Z.max a l = a ∨ foldl Z.max a l ∈ l.
Proof.
  revert a. induction l as [|x l IH]; intros a; simpl; [by left|].
  destruct (IH (Z.max a x)) as [E|E].
  - rewrite E. destruct (Z.max_spec a x) as [[_ ->]|[_ ->]].
    + right. apply elem_of_cons. by left.
    + by left.
  - right. apply elem_of_cons. by right.
Qed.

(** On a non-empty array [np.max] returns an element that bounds all. *)
Lemma np_max_spec (scores : list Z) :
  scores ≠ [] →
  ∃ mx, Np.max scores = Ok mx ∧ mx ∈ scores ∧ ∀ s, s ∈ scores → s ≤ mx.
Proof.
  destruct scores as [|s rest]; [done|]. intros _.
  exists (foldl Z.max s rest). split; [done|]. split.
  - destruct (foldl_max_attained rest s) as [->|E]; apply elem_of_cons; auto.
  - intros y [->|Hy]%elem_of_cons.
    + apply foldl_max_ge.
    + by apply foldl_max_upper.
Qed.

Lemma np_max_empty : Np.max [] = Raise ValueError.
Proof. reflexivity. Qed.

(** [np.max] is determined by the bounding element. *)
Lemma np_max_unique (scores : list Z) (mx : Z) :
  mx ∈ scores → (∀ s, s ∈ scores → s ≤ mx) → Np.max scores = Ok mx.
Proof.
  intros Hin Hub.
  destruct (np_max_spec scores) as (m & -> & Hm & Hle).
  { intros ->. by apply elem_of_nil in Hin. }
  f_equal. apply Hle in Hin. apply Hub in Hm. lia.
Qed.

Lemma getitem_middle {A} (pre l : list A) (x : A) :
  getitem (pre ++ x :: l) (length pre) = Ok x.
Proof. unfold getitem. by rewrite list_lookup_middle. Qed.

(** Reading a list back at the indices where a test holds is filtering. *)
Lemma comprehension_argwhere_from {A} (pre l : list A) (p : A → bool) :
  comprehension (getitem (pre ++ l))
    (Np.argwhere_from (length pre) (p <$> l))
  = Ok (filter (λ x, p x = true) l).
Proof.
  revert pre. induction l as [|x l IH]; intros pre; [done|].
  specialize (IH (pre ++ [x])%list).
  rewrite <- (assoc_L (++)) in IH. simpl in IH.
  rewrite length_app, Nat.add_1_r in IH.
  rewrite fmap_cons. simpl Np.argwhere_from.
  rewrite filter_cons. destruct (p x) eqn:Hp.
  - rewrite decide_True by done. cbn [comprehension].
    rewrite getitem_middle, IH. done.
  - rewrite decide_False by (by intros ?). apply IH.
Qed.

Lemma comprehension_argwhere {A} (l : list A) (p : A → bool) :
  comprehension (getitem l) (Np.argwhere (p <$> l))
  = Ok (filter (λ x, p x = true) l).
Proof. apply (comprehension_argwhere_from [] l p). Qed.

(** ** [get_best_score] in closed form *)

Lemma filter_eqb_with_score {A} (f : A → Z) (mx : Z) (l : list A) :
  filter (λ x, (f x =? mx) = true) l = with_score f mx l.
Proof.
  unfold with_score. apply list_filter_iff. intros x. apply Z.eqb_eq.
Qed.

Lemma get_best_score_unfold {A} (l : list A) (f : A → Z) (min_score : option Z)
    (mx : Z) :
  Np.max (f <$> l) = Ok mx →
  get_best_score l f min_score =
    Ok (match min_score with
        | Some m => if mx <=? m then [] else with_score f mx l
        | None => with_score f mx l
        end).
Proof.
  intros Hmx. unfold get_best_score.
  assert (Hsel : comprehension (getitem l)
            (Np.argwhere ((λ s, s =? mx) <$> (f <$> l))) = Ok (with_score f mx l)).
  { rewrite <- list_fmap_compose, <- filter_eqb_with_score.
    apply (comprehension_argwhere l (λ x, f x =? mx)). }
  destruct min_score as [m|]; rewrite Hmx; cbn.
  - destruct (mx <=? m); [done|]. cbn. apply Hsel.
  - apply Hsel.
Qed.

Lemma get_best_score_nil {A} (f : A → Z) (min_score : option Z) :
  get_best_score [] f min_score = Raise ValueError.
Proof. by destruct min_score. Qed.








(** ** Filters that keep all or nothing *)

Lemma filter_all {A} (P : A → Prop) `{!∀ x, Decision (P x)} (l : list A) :
  (∀ x, x ∈ l → P x) → filter P l = l.
Proof.
  induction l as [|x l IH]; intros Hall; [done|].
  rewrite filter_cons_True by (apply Hall, elem_of_cons; by left).
  f_equal. apply IH. intros y Hy. apply Hall, elem_of_cons. by right.
Qed.

Lemma filter_none {A} (P : A → Prop) `{!∀ x, Decision (P x)} (l : list A) :
  (∀ x, x ∈ l → ¬ P x) → filter P l = [].
Proof.
  induction l as [|x l IH]; intros Hnone; [done|].
  rewrite filter_cons_False by (apply Hnone, elem_of_cons; by left).
  apply IH. intros y Hy. apply Hnone, elem_of_cons. by right.
Qed.

(** ** The stages *)

Section StageFacts.
Context {A : Type}.
Variable name_of : A → string.
Variable params_of : A → list string.
Variable params_info likelihoods_info : targets.

Local Abbreviation sc_params := (score_params params_of params_info).
Local Abbreviation sc_likes := (score_likes name_of likelihoods_info).

Lemma score_params_nonneg (c : A) : 0 ≤ sc_params c.
Proof. unfold score_params. lia. Qed.

Lemma score_likes_nonneg (c : A) : 0 ≤ sc_likes c.
Proof. unfold score_likes. lia. Qed.

(** No declared parameter is a target name or alias: the score is 0. *)
Lemma score_params_disjoint (c : A) :
  (∀ p, p ∈ params_of c → p ∉ alias_set params_info) → sc_params c = 0.
Proof.
  intros Hdis. unfold score_params, params_renames.
  replace (list_to_set (params_of c) ∩ alias_set params_info)
    with (∅ : gset string); [done|].
  symmetry. apply leibniz_equiv. apply disjoint_intersection.
  intros p Hp%elem_of_list_to_set. by apply Hdis.
Qed.

(** No alias pattern matches the file name: the score is 0. *)
Lemma score_likes_no_match (c : A) :
  (∀ a, a ∈ alias_set likelihoods_info →
        Re.search (like_regexp a) (name_of c) = false) →
  sc_likes c = 0.
Proof.
  intros Hno. unfold score_likes, likes_regexps, likes_renames.
  replace (filter _ _) with (@nil Re.regex); [done|].
  symmetry. apply filter_none.
  intros r (a & -> & Ha%elem_of_elements)%list_elem_of_fmap.
  by rewrite (Hno a Ha).
Qed.

(** All scores equal: without a minimum every candidate is kept. *)
Lemma get_best_score_constant (l : list A) (f : A → Z) (k : Z) :
  l ≠ [] → (∀ c, c ∈ l → f c = k) → get_best_score l f None = Ok l.
Proof.
  intros Hl Hk.
  assert (Np.max (f <$> l) = Ok k) as Hmx.
  { apply np_max_unique.
    - destruct l as [|c l]; [done|]. apply list_elem_of_fmap.
      exists c. split; [symmetry; apply Hk|]; apply elem_of_cons; by left.
    - intros s (c & -> & Hc)%list_elem_of_fmap. rewrite (Hk c Hc). lia. }
  rewrite (get_best_score_unfold _ _ _ _ Hmx). f_equal.
  unfold with_score. by apply filter_all.
Qed.

(** All scores zero: with minimum 0 no candidate is kept. *)
Lemma get_best_score_all_zero (l : list A) (f : A → Z) :
  l ≠ [] → (∀ c, c ∈ l → f c = 0) → get_best_score l f (Some 0) = Ok [].
Proof.
  intros Hl Hk.
  assert (Np.max (f <$> l) = Ok 0) as Hmx.
  { apply np_max_unique.
    - destruct l as [|c l]; [done|]. apply list_elem_of_fmap.
      exists c. split; [symmetry; apply Hk|]; apply elem_of_cons; by left.
    - intros s (c & -> & Hc)%list_elem_of_fmap. rewrite (Hk c Hc). lia. }
  by rewrite (get_best_score_unfold _ _ _ _ Hmx).
Qed.

Variable rng_integers : Z → nat → nat.


(** With a seed, the draw does not depend on the entropy at hand. *)
Lemma rng_choice_seeded (seed e1 e2 : Z) (n : nat) :
  rng_choice rng_integers (Some seed) e1 n
  = rng_choice rng_integers (Some seed) e2 n.
Proof. reflexivity. Qed.




(** C5. In the likelihood stage, when no file name of the (non-empty)
    parameter-matched set matches the pattern of any target likelihood
    name or alias, the stage returns the whole set, in order: no
    minimum score is applied. *)
Theorem score_likes_stage_keeps_all (best_p : list A) :
  best_p ≠ [] →
  (∀ c a, c ∈ best_p → a ∈ alias_set likelihoods_info →
          Re.search (like_regexp a) (name_of c) = false) →
  (∀ c, c ∈ best_p → score_likes name_of likelihoods_info c = 0)
  ∧ get_best_score best_p (score_likes name_of likelihoods_info) None
    = Ok best_p.
Proof.
  intros Hne Hno.
  assert (∀ c, c ∈ best_p → sc_likes c = 0) as Hzero.
  { intros c Hc. apply score_likes_no_match. intros a Ha. by apply Hno. }
  split; [done|]. by apply (get_best_score_constant _ _ 0).
Qed.

End StageFacts.

Lemma elem_of_alias_set_single (a k : string) :
  a ∈ alias_set [(k, [])] → a = k.
Proof.
  unfold alias_set. cbn. rewrite elem_of_union, elem_of_singleton.
  intros [->|Hin]; [done|]. by apply not_elem_of_empty in Hin.
Qed.

Lemma score_likes_stage_keeps_all_witness :
  get_best_score
    [mkCovmat "d" "base.covmat" ["x"]; mkCovmat "d" "base_mnu.covmat" ["x"; "mnu"]]
    (score_likes name [("lowl", [])]) None
  = Ok [mkCovmat "d" "base.covmat" ["x"];
        mkCovmat "d" "base_mnu.covmat" ["x"; "mnu"]].
Proof.
  apply (score_likes_stage_keeps_all name [("lowl", [])]); [discriminate|].
  intros c a Hc Ha. apply elem_of_alias_set_single in Ha. subst a.
  repeat (apply elem_of_cons in Hc as [->|Hc]; [reflexivity|]).
  by apply elem_of_nil in Hc.
Defined.

(** ** The stages look at candidates through the two projections only

    Selecting among images [g <$> l] is selecting in [l] with the
    projections composed with [g]: the choice among references to records
    is the choice among the records they refer to. *)

Lemma with_score_fmap {A B} (g : B → A) (f : A → Z) (mx : Z) (l : list B) :
  with_score f mx (g <$> l) = g <$> with_score (f ∘ g) mx l.
Proof.
  unfold with_score. induction l as [|x l IH]; [done|].
  rewrite fmap_cons, !filter_cons. cbn.
  destruct (decide (f (g x) = mx)); by rewrite IH.
Qed.

Lemma get_best_score_fmap {A B} (g : B → A) (f : A → Z) (l : list B)
    (min_score : option Z) :
  get_best_score (g <$> l) f min_score
  = fmap (M := list) g <$> get_best_score l (f ∘ g) min_score.
Proof.
  destruct l as [|x l]; [by rewrite fmap_nil, !get_best_score_nil|].
  destruct (np_max_spec ((f ∘ g) <$> x :: l)) as (mx & Hmx & _); [done|].
  rewrite (get_best_score_unfold _ _ _ _ Hmx).
  rewrite list_fmap_compose in Hmx.
  rewrite (get_best_score_unfold _ _ _ _ Hmx). cbn [fmap result_fmap].
  f_equal. destruct min_score as [m|]; [destruct (mx <=? m); [done|]|];
    apply with_score_fmap.
Qed.

Lemma getitem_fmap {A B} (g : B → A) (l : list B) (i : nat) :
  getitem (g <$> l) i = g <$> getitem l i.
Proof. unfold getitem. rewrite list_lookup_fmap. by destruct (l !! i). Qed.

Section Naturality.
Context {A B : Type}.
Variable g : B → A.
Variable name_of : A → string.
Variable params_of : A → list string.
Variable params_info likelihoods_info : targets.
Variable rng_integers : Z → nat → nat.

Lemma narrow_fmap (l : list B) :
  narrow name_of params_of likelihoods_info (g <$> l)
  = fmap (M := list) g
      <$> narrow (name_of ∘ g) (params_of ∘ g) likelihoods_info l.
Proof.
  unfold narrow. rewrite get_best_score_fmap.
  change (score_likes name_of likelihoods_info ∘ g)
    with (score_likes (name_of ∘ g) likelihoods_info).
  destruct (get_best_score l _ None) as [r1|e]; [|done].
  cbn [fmap result_fmap]. rewrite !bind_Ok, get_best_score_fmap.
  change (score_simpler_params params_of ∘ g)
    with (score_simpler_params (params_of ∘ g)).
  destruct (get_best_score r1 _ None) as [r2|e]; [|done].
  cbn [fmap result_fmap]. rewrite !bind_Ok, get_best_score_fmap. done.
Qed.

Lemma choose_fmap (l : list B) (random_state : option Z) (entropy : Z) :
  choose name_of params_of params_info likelihoods_info rng_integers
    (g <$> l) random_state entropy
  = fmap (M := option) g
      <$> choose (name_of ∘ g) (params_of ∘ g) params_info
            likelihoods_info rng_integers l random_state entropy.
Proof.
  unfold choose. destruct l as [|x l]; [done|]. rewrite fmap_cons.
  rewrite <- (fmap_cons g x l), get_best_score_fmap.
  change (score_params params_of params_info ∘ g)
    with (score_params (params_of ∘ g) params_info).
  destruct (get_best_score (x :: l) _ (Some 0)) as [bp|e]; [|done].
  cbn [fmap result_fmap]. rewrite !bind_Ok.
  destruct bp as [|b bp]; [done|]. rewrite fmap_cons.
  rewrite <- (fmap_cons g b bp), narrow_fmap.
  destruct (narrow _ _ _ (b :: bp)) as [r|e]; [|done].
  cbn [fmap result_fmap]. rewrite !bind_Ok, length_fmap.
  destruct (rng_choice rng_integers random_state entropy (length r))
    as [i|e]; [|done].
  rewrite !bind_Ok, getitem_fmap. by destruct (getitem r i).
Qed.

End Naturality.

(** ** The selector *)

Section SelectorFacts.
Variable fingerprint : list string → string.
Variable rng_integers : Z → nat → nat.

Local Abbreviation load := (get_covmat_database_at_paths fingerprint).
Local Abbreviation select := (get_best_covmat_ext fingerprint rng_integers).

Lemma dict_copy_eq (c : Covmat) : dict_copy c = c.
Proof. by destruct c. Qed.


(** C4. When the loaded database is non-empty and no declared parameter
    of any candidate is a target parameter name or one of its renames,
    the selector returns [None] and does not raise: the first stage is
    run with minimum score 0 and its maximum score is 0. *)
Theorem no_shared_parameter_returns_None w dirs pi li rs cached entropy db w' :
  get_covmat_database_at_paths fingerprint w dirs cached = Ok (db, w') →
  db ≠ [] →
  (∀ c p, c ∈ db → p ∈ params c → p ∉ alias_set pi) →
  get_best_score db (score_params params pi) (Some 0) = Ok []
  ∧ get_best_covmat_ext fingerprint rng_integers w dirs pi li rs cached
      entropy = Ok (None, w').
Proof.
  intros Hload Hne Hdis.
  assert (get_best_score db (score_params params pi) (Some 0) = Ok [])
    as Hstage.
  { apply get_best_score_all_zero; [done|].
    intros c Hc. apply score_params_disjoint. intros p Hp. by eapply Hdis. }
  split; [done|].
  unfold get_best_covmat_ext. rewrite Hload, bind_Ok. unfold choose.
  destruct db as [|c0 db]; [done|]. by rewrite Hstage.
Qed.

End SelectorFacts.

(** ** The two-record scenario *)

Section Scenario.
Variable fingerprint : list string → string.
Variable rng_integers : Z → nat → nat.

Local Abbreviation pick :=
  (choose name params scenario_params scenario_likes rng_integers).


Lemma scenario_scores (dA dB : string) :
  score_params params scenario_params (record_A dA) = 2
  ∧ score_params params scenario_params (record_B dB) = 2
  ∧ score_likes name scenario_likes (record_A dA) = 1
  ∧ score_likes name scenario_likes (record_B dB) = 1
  ∧ score_simpler_params params (record_A dA) = -2
  ∧ score_simpler_params params (record_B dB) = -3.
Proof. repeat split; vm_compute; reflexivity. Qed.



End Scenario.


Lemma no_shared_parameter_returns_None_witness :
  ∃ w', get_best_covmat_ext (λ _, "0") (λ _ _, 7%nat) scenario_world
          ["covmats/"] [("omegabh2", ["ombh2"])] scenario_likes (Some 3) true 11
        = Ok (None, w').
Proof.
  eexists.
  refine (proj2
    (no_shared_parameter_returns_None (λ _, "0") (λ _ _, 7%nat) scenario_world
       ["covmats/"] [("omegabh2", ["ombh2"])] scenario_likes (Some 3) true 11
       [record_B "covmats/"; record_A "covmats/"] _ _ _ _)).
  - vm_compute. reflexivity.
  - discriminate.
  - intros c p Hc Hp Hin.
    assert (p = "omegabh2" ∨ p = "ombh2") as Hp'.
    { unfold alias_set in Hin. cbn in Hin.
      apply elem_of_union in Hin as [Hin|Hin];
        [left; by apply elem_of_singleton in Hin|].
      apply elem_of_union in Hin as [Hin|Hin];
        [right; by apply elem_of_singleton in Hin|].
      by apply not_elem_of_empty in Hin. }
    repeat (apply elem_of_cons in Hc as [->|Hc];
      [cbn in Hp;
       repeat (apply elem_of_cons in Hp as [->|Hp];
               [by destruct Hp' as [?|?]|]);
       by apply elem_of_nil in Hp|]).
    by apply elem_of_nil in Hc.
Defined.

(** ** Repeated calls *)

Section Repeat.
Variable fingerprint : list string → string.
Variable rng_integers : Z → nat → nat.

Local Abbreviation load := (get_covmat_database_at_paths fingerprint).
Local Abbreviation select := (get_best_covmat_ext fingerprint rng_integers).


Lemma read_cache_file_Some w dirs db :
  read_cache_file fingerprint w dirs = Some db ↔
  cache_files w !! fingerprint dirs = Some (Pickled db)
  ∧ count_covmat_files (listdir w) dirs = Some (length db).
Proof.
  unfold read_cache_file.
  destruct (cache_files w !! fingerprint dirs) as [[|l]|]; cbn;
    [naive_solver| |naive_solver].
  destruct (count_covmat_files (listdir w) dirs) as [n|]; cbn;
    [|naive_solver].
  case_decide; naive_solver.
Qed.

Lemma recreate_inv w dirs cached db w' :
  recreate fingerprint w dirs cached = Ok (db, w') →
  scan_folders (listdir w) dirs [] = Ok db
  ∧ listdir w' = listdir w
  ∧ (cached = true →
       cache_files w' = <[fingerprint dirs := Pickled db]> (cache_files w)
       ∧ loaded_covmats_database w'
         = <[fingerprint dirs := db]> (loaded_covmats_database w))
  ∧ (cached = false → w' = w).
Proof.
  unfold recreate.
  destruct (scan_folders (listdir w) dirs []) as [l|e]; [|done].
  rewrite bind_Ok. destruct cached; intros [= <- <-]; naive_solver.
Qed.

Lemma recreate_scan w dirs cached db :
  scan_folders (listdir w) dirs [] = Ok db →
  ∃ w', recreate fingerprint w dirs cached = Ok (db, w').
Proof.
  intros Hs. unfold recreate. rewrite Hs, bind_Ok.
  destruct cached; eauto.
Qed.



Lemma select_inv w dirs pi li rs cached entropy best w' :
  select w dirs pi li rs cached entropy = Ok (best, w') →
  ∃ db, load w dirs cached = Ok (db, w')
        ∧ choose name params pi li rng_integers db rs entropy = Ok best.
Proof.
  unfold get_best_covmat_ext.
  destruct (load w dirs cached) as [[db w0]|e] eqn:Hload;
    [|by rewrite bind_Raise].
  rewrite bind_Ok.
  destruct (choose name params pi li rng_integers db rs entropy)
    as [b|e] eqn:Hch; [|by rewrite bind_Raise].
  rewrite bind_Ok. intros [= <- <-]. exists db. split; [done|].
  rewrite Hch. destruct b as [c|]; [|done]. cbn. by rewrite dict_copy_eq.
Qed.


End Repeat.

(** ** The directory scan *)

Lemma scan_folder_records folder_full entries db :
  scan_folder folder_full entries db = (db ++ records_of folder_full entries)%list.
Proof.
  revert db. induction entries as [|[filename f] entries IH]; intros db.
  - by rewrite app_nil_r.
  - cbn. unfold records_of in *. cbn.
    destruct (read_params f) as [ps|]; cbn; rewrite IH; [|done].
    by rewrite <- (assoc_L (++)).
Qed.

Lemma elem_of_records_of folder_full entries c :
  c ∈ records_of folder_full entries ↔
  folder c = folder_full
  ∧ ∃ f, (name c, f) ∈ entries ∧ read_params f = Some (params c).
Proof.
  unfold records_of. rewrite list_elem_of_omap. split.
  - intros ([filename f] & Hin & Hc). cbn in Hc.
    destruct (read_params f) as [ps|] eqn:Hps; [|done].
    injection Hc as <-. cbn. eauto.
  - intros (<- & f & Hin & Hps). exists (name c, f). split; [done|].
    cbn. rewrite Hps. by destruct c.
Qed.

(** Where the records of a whole scan come from. *)
Lemma elem_of_scan_folders ls dirs db0 db c :
  scan_folders ls dirs db0 = Ok db →
  c ∈ db ↔
  c ∈ db0 ∨ (folder c ∈ dirs
             ∧ ∃ entries f, ls !! folder c = Some entries
                            ∧ (name c, f) ∈ entries
                            ∧ read_params f = Some (params c)).
Proof.
  revert db0. induction dirs as [|d dirs IH]; intros db0; cbn.
  - intros [= <-]. split; [by left|]. intros [?|[H _]]; [done|].
    by apply elem_of_nil in H.
  - destruct (ls !! d) as [entries|] eqn:Hd; [|done].
    intros Hscan. rewrite (IH _ Hscan), scan_folder_records.
    rewrite elem_of_app, elem_of_records_of. split.
    + intros [[?|[<- (f & Hin & Hps)]]|[Hin H]].
      * by left.
      * right. split; [apply elem_of_cons; by left|]. eauto.
      * right. split; [apply elem_of_cons; by right|]. done.
    + intros [?|[[->|Hin]%elem_of_cons (entries' & f & Hl & He & Hps)]].
      * left. by left.
      * left. right. split; [done|]. rewrite Hd in Hl.
        injection Hl as <-. eauto.
      * right. split; [done|]. eauto.
Qed.

(** The scan returns whenever every folder can be listed. *)
Lemma scan_folders_total ls dirs db0 :
  (∀ d, d ∈ dirs → is_Some (ls !! d)) →
  ∃ db, scan_folders ls dirs db0 = Ok db.
Proof.
  revert db0. induction dirs as [|d dirs IH]; intros db0 Hall; cbn; [eauto|].
  destruct (Hall d) as [entries ->]; [apply elem_of_cons; by left|].
  apply IH. intros d' Hd'. apply Hall, elem_of_cons. by right.
Qed.

Lemma read_params_header_a_b_c :
  read_params (Text header_a_b_c) = Some ["a"; "b"; "c"].
Proof. reflexivity. Qed.

Lemma read_params_no_marker header :
  Str.startswith "#" (Str.strip header) = false →
  read_params (Text header) = None.
Proof. intros H. unfold read_params. by rewrite H. Qed.

(** C8. In a scan that goes through, a listed file whose first line is
    [# a b c] followed by a newline gives the record of its folder and
    name with declared parameters [a], [b], [c]; and a listed file whose
    first line, stripped, does not start with [#] gives no record: the
    database has no record of that folder and name. *)
Theorem scan_reads_header ls dirs db folder_full entries filename header :
  scan_folders ls dirs [] = Ok db →
  folder_full ∈ dirs →
  ls !! folder_full = Some entries →
  (filename, Text header) ∈ entries →
  (∀ f, (filename, f) ∈ entries → f = Text header) →
  (header = header_a_b_c →
     mkCovmat folder_full filename ["a"; "b"; "c"] ∈ db)
  ∧ (Str.startswith "#" (Str.strip header) = false →
     ∀ c, c ∈ db → ¬ (folder c = folder_full ∧ name c = filename)).
Proof.
  intros Hscan Hdir Hls Hin Huniq. split.
  - intros ->. rewrite (elem_of_scan_folders _ _ _ _ _ Hscan). right. cbn.
    split; [done|]. exists entries, (Text header_a_b_c).
    by rewrite Hls, read_params_header_a_b_c.
  - intros Hno c Hc [Hf Hn].
    rewrite (elem_of_scan_folders _ _ _ _ _ Hscan) in Hc.
    destruct Hc as [Hc|(_ & entries' & f & Hl & He & Hps)].
    { by apply elem_of_nil in Hc. }
    rewrite Hf, Hls in Hl. injection Hl as <-. rewrite Hn in He.
    rewrite (Huniq f He), (read_params_no_marker _ Hno) in Hps. done.
Qed.

Lemma scan_reads_header_witness :
  scan_folders scan_example ["covmats/"] []
    = Ok [mkCovmat "covmats/" "good.covmat" ["a"; "b"; "c"]]
  ∧ mkCovmat "covmats/" "good.covmat" ["a"; "b"; "c"]
      ∈ [mkCovmat "covmats/" "good.covmat" ["a"; "b"; "c"]]
  ∧ ∀ c, c ∈ [mkCovmat "covmats/" "good.covmat" ["a"; "b"; "c"]] →
         ¬ (folder c = "covmats/" ∧ name c = "bad.covmat").
Proof.
  assert (scan_folders scan_example ["covmats/"] []
          = Ok [mkCovmat "covmats/" "good.covmat" ["a"; "b"; "c"]]) as Hscan
    by (vm_compute; reflexivity).
  assert (scan_example !! "covmats/"
          = Some [("good.covmat", Text header_a_b_c);
                  ("bad.covmat", Text ("a b c" +:+ newline))]) as Hls
    by (vm_compute; reflexivity).
  split; [exact Hscan|]. split.
  - refine (proj1 (scan_reads_header _ _ _ _ _ "good.covmat" header_a_b_c
                     Hscan _ Hls _ _) eq_refl).
    + apply elem_of_cons. by left.
    + apply elem_of_cons. by left.
    + intros f Hf. apply elem_of_cons in Hf as [[= ->]|Hf]; [done|].
      apply elem_of_cons in Hf as [[=]|Hf]. by apply elem_of_nil in Hf.
  - refine (proj2 (scan_reads_header _ _ _ _ _ "bad.covmat"
                     ("a b c" +:+ newline) Hscan _ Hls _ _) eq_refl).
    + apply elem_of_cons. by left.
    + apply elem_of_cons. right. apply elem_of_cons. by left.
    + intros f Hf. apply elem_of_cons in Hf as [[=]|Hf].
      apply elem_of_cons in Hf as [[= ->]|Hf]; [done|].
      by apply elem_of_nil in Hf.
Defined.

(** ** The likelihood pattern *)

Lemma append_nil_l (s : string) : "" +:+ s = s.
Proof. reflexivity. Qed.

Lemma append_cons (c : ascii) (s t : string) :
  String c s +:+ t = String c (s +:+ t).
Proof. reflexivity. Qed.

Lemma match_here_delimiters (r : Re.regex) (s : string) :
  Re.match_here (delimiters ++ r)%list s = true ↔
  ∃ d s', s = String d s' ∧ is_delimiter d ∧ Re.match_here r s' = true.
Proof.
  unfold delimiters, is_delimiter. cbn. destruct s as [|d s'].
  - split; [done|]. by intros (? & ? & ? & _).
  - rewrite andb_true_iff, !orb_true_iff, !Ascii.eqb_eq. split.
    + intros [[->|[->|?]] Hr]; [exists "_"%char, s'|exists "."%char, s'|done];
        auto.
    + intros (d' & s'' & [= -> ->] & Hd & Hr). split; [|done].
      destruct Hd as [->| ->]; auto.
Qed.

Lemma match_here_escape (a : string) (r : Re.regex) (s : string) :
  Re.match_here (Re.escape a ++ r)%list s = true ↔
  ∃ s', s = a +:+ s' ∧ Re.match_here r s' = true.
Proof.
  revert s. induction a as [|c a IH]; intros s; cbn [Re.escape app].
  - split; [by exists s|]. by intros (s' & -> & ?).
  - cbn [Re.match_here Re.atom_matches]. destruct s as [|c' s].
    + split; [done|]. intros (? & Heq & _). by rewrite append_cons in Heq.
    + rewrite andb_true_iff, Ascii.eqb_eq, IH. split.
      * intros [-> (s' & -> & Hr)]. by exists s'.
      * intros (s' & Heq & Hr). rewrite append_cons in Heq.
        injection Heq as -> ->. split; [done|]. by exists s'.
Qed.

Lemma search_iff (r : Re.regex) (s : string) :
  Re.search r s = true ↔
  ∃ pre suf, s = pre +:+ suf ∧ Re.match_here r suf = true.
Proof.
  induction s as [|c s IH]; cbn [Re.search]; rewrite orb_true_iff.
  - split.
    + intros [H|?]; [|done]. by exists "", "".
    + intros (pre & suf & Heq & H). left.
      destruct pre; [|by rewrite append_cons in Heq].
      rewrite append_nil_l in Heq. by subst.
  - rewrite IH. split.
    + intros [H|(pre & suf & -> & H)]; [by exists "", (String c s)|].
      by exists (String c pre), suf.
    + intros ([|c' pre] & suf & Heq & H).
      * left. rewrite append_nil_l in Heq. by subst.
      * right. rewrite append_cons in Heq. injection Heq as -> ->.
        by exists pre, suf.
Qed.

(** The pattern of an alias finds the alias only between two delimiters. *)
Lemma search_like_regexp (alias nm : string) :
  Re.search (like_regexp alias) nm = true ↔
  ∃ pre d1 d2 post,
    is_delimiter d1 ∧ is_delimiter d2
    ∧ nm = pre +:+ String d1 (alias +:+ String d2 post).
Proof.
  rewrite search_iff. unfold like_regexp. split.
  - intros (pre & suf & -> & H).
    apply match_here_delimiters in H as (d1 & s1 & -> & Hd1 & H).
    apply match_here_escape in H as (s2 & -> & H).
    rewrite <- (app_nil_r delimiters) in H.
    apply match_here_delimiters in H as (d2 & post & -> & Hd2 & _).
    by exists pre, d1, d2, post.
  - intros (pre & d1 & d2 & post & Hd1 & Hd2 & ->).
    exists pre, (String d1 (alias +:+ String d2 post)). split; [done|].
    apply match_here_delimiters. exists d1, (alias +:+ String d2 post).
    split; [done|]. split; [done|].
    apply match_here_escape. exists (String d2 post). split; [done|].
    rewrite <- (app_nil_r delimiters).
    apply match_here_delimiters. by exists d2, post.
Qed.

(** C10. The pattern of an alias matches a file name exactly when the name
    has the alias with a delimiter character ([_] or [.]) right before it
    and one right after it; so an occurrence at the very beginning or at
    the very end of the name does not count. The alias [lowl] scores 0
    against [lowl.covmat] and against [planck_lowl], and 1 against
    [planck_lowl.covmat]. *)
Theorem alias_needs_delimiters_on_both_sides (alias nm : string) :
  (Re.search (like_regexp alias) nm = true ↔
   ∃ pre d1 d2 post,
     is_delimiter d1 ∧ is_delimiter d2
     ∧ nm = pre +:+ String d1 (alias +:+ String d2 post))
  ∧ score_likes name [("lowl", [])] (mkCovmat "d" "lowl.covmat" ["x"]) = 0
  ∧ score_likes name [("lowl", [])] (mkCovmat "d" "planck_lowl" ["x"]) = 0
  ∧ score_likes name [("lowl", [])] (mkCovmat "d" "planck_lowl.covmat" ["x"]) = 1.
Proof.
  split; [apply search_like_regexp|].
  repeat split; vm_compute; reflexivity.
Qed.

(** ** Validation of the cache file *)

Lemma count_covmat_files_cons ls d dirs :
  count_covmat_files ls (d :: dirs) =
    entries ← ls !! d;
    n ← count_covmat_files ls dirs;
    Some (length (filter is_covmat_name entries) + n)%nat.
Proof. reflexivity. Qed.

(** Counting needs every folder to be listable. *)
Lemma count_covmat_files_listable ls dirs n :
  count_covmat_files ls dirs = Some n → ∀ d, d ∈ dirs → is_Some (ls !! d).
Proof.
  revert n. induction dirs as [|d0 dirs IH]; intros n Hn d Hd.
  - by apply elem_of_nil in Hd.
  - rewrite count_covmat_files_cons in Hn.
    destruct (ls !! d0) as [entries|] eqn:Hd0; [|done]. cbn in Hn.
    destruct (count_covmat_files ls dirs) as [m|] eqn:Hm; [|done].
    apply elem_of_cons in Hd as [->|Hd]; [by rewrite Hd0|]. by eapply IH.
Qed.

(** Removing a name from a listing removes its share of the count. *)
Lemma count_without_le (entries : list (string * file)) filename :
  (length (filter is_covmat_name (filter (λ e, e.1 ≠ filename) entries))
   ≤ length (filter is_covmat_name entries))%nat.
Proof.
  induction entries as [|e entries IH]; [done|].
  rewrite (filter_cons (λ e, e.1 ≠ filename)), (filter_cons is_covmat_name e).
  destruct (decide (e.1 ≠ filename)), (decide (is_covmat_name e)).
  - rewrite filter_cons_True by done. cbn. lia.
  - by rewrite filter_cons_False by done.
  - cbn. lia.
  - done.
Qed.

Lemma count_without_lt (entries : list (string * file)) filename f :
  (filename, f) ∈ entries →
  Str.endswith Extension_covmat filename = true →
  (length (filter is_covmat_name (filter (λ e, e.1 ≠ filename) entries))
   < length (filter is_covmat_name entries))%nat.
Proof.
  intros Hin Hext.
  induction entries as [|e entries IH]; [by apply elem_of_nil in Hin|].
  rewrite (filter_cons (λ e, e.1 ≠ filename)), (filter_cons is_covmat_name e).
  apply elem_of_cons in Hin as [<-|Hin].
  - rewrite decide_False by (cbn; by intros ?).
    rewrite decide_True by done. cbn.
    pose proof (count_without_le entries filename). lia.
  - specialize (IH Hin).
    destruct (decide (e.1 ≠ filename)), (decide (is_covmat_name e)).
    + rewrite filter_cons_True by done. cbn. lia.
    + by rewrite filter_cons_False by done.
    + cbn. lia.
    + done.
Qed.

Lemma count_after_remove_le ls dirs folder_full filename n :
  count_covmat_files ls dirs = Some n →
  ∃ n', count_covmat_files
          (alter (filter (λ e, e.1 ≠ filename)) folder_full ls) dirs = Some n'
        ∧ (n' ≤ n)%nat.
Proof.
  revert n. induction dirs as [|d dirs IH]; intros n Hn.
  - injection Hn as <-. by exists O.
  - rewrite count_covmat_files_cons in *.
    destruct (ls !! d) as [entries|] eqn:Hd; [|done]. cbn in Hn.
    destruct (count_covmat_files ls dirs) as [m|] eqn:Hm; [|done].
    injection Hn as <-. destruct (IH m eq_refl) as (m' & -> & Hle).
    destruct (decide (folder_full = d)) as [->|Hne].
    + rewrite lookup_alter_eq, Hd. cbn. eexists. split; [done|].
      pose proof (count_without_le entries filename). lia.
    + rewrite lookup_alter_ne, Hd by done. cbn.
      eexists. split; [done|]. lia.
Qed.

Lemma count_after_remove_lt ls dirs folder_full entries filename f n :
  count_covmat_files ls dirs = Some n →
  folder_full ∈ dirs →
  ls !! folder_full = Some entries →
  (filename, f) ∈ entries →
  Str.endswith Extension_covmat filename = true →
  ∃ n', count_covmat_files
          (alter (filter (λ e, e.1 ≠ filename)) folder_full ls) dirs = Some n'
        ∧ (n' < n)%nat.
Proof.
  intros Hn Hdir Hls Hin Hext.
  revert n Hn. induction dirs as [|d dirs IH]; intros n Hn.
  { by apply elem_of_nil in Hdir. }
  rewrite count_covmat_files_cons in *.
  destruct (ls !! d) as [entries'|] eqn:Hd; [|done]. cbn in Hn.
  destruct (count_covmat_files ls dirs) as [m|] eqn:Hm; [|done].
  injection Hn as <-.
  destruct (decide (folder_full = d)) as [<-|Hne].
  - rewrite lookup_alter_eq, Hd. cbn.
    rewrite Hls in Hd. injection Hd as <-.
    destruct (count_after_remove_le ls dirs folder_full filename m Hm)
      as (m' & -> & Hle).
    eexists. split; [done|].
    pose proof (count_without_lt entries filename f Hin Hext). lia.
  - rewrite lookup_alter_ne, Hd by done. cbn.
    apply elem_of_cons in Hdir as [->|Hdir]; [done|].
    destruct (IH Hdir m eq_refl) as (m' & -> & Hlt).
    eexists. split; [done|]. lia.
Qed.

Section CacheValidation.
Variable fingerprint : list string → string.

Local Abbreviation load := (get_covmat_database_at_paths fingerprint).

Lemma read_cache_file_None w dirs :
  read_cache_file fingerprint w dirs = None
  ↔ ¬ cache_file_valid fingerprint w dirs.
Proof.
  unfold cache_file_valid. split.
  - intros Hnone (l & Hb & Hc).
    assert (read_cache_file fingerprint w dirs = Some l) as Hsome
      by (by apply read_cache_file_Some).
    congruence.
  - intros Hnot.
    destruct (read_cache_file fingerprint w dirs) as [l|] eqn:Hr; [|done].
    apply read_cache_file_Some in Hr. destruct Hnot. by exists l.
Qed.

Lemma load_on_miss w dirs :
  in_process_miss fingerprint w dirs →
  load w dirs true =
    match read_cache_file fingerprint w dirs with
    | Some l =>
        Ok (l, {| listdir := listdir w;
                  cache_files := cache_files w;
                  loaded_covmats_database :=
                    <[fingerprint dirs := l]> (loaded_covmats_database w) |})
    | None => recreate fingerprint w dirs true
    end.
Proof.
  unfold get_covmat_database_at_paths. by intros [-> | ->].
Qed.

(** C7, as the code has it. When the in-process map has no usable entry,
    a cached load returns the persisted list only if it unpickles and its
    length equals the number of names with the extension in the folders;
    in every other case (no file, a file that does not unpickle, a folder
    that cannot be listed, a different count) the load is the complete
    scan, whose result replaces the cache file and the in-process entry.
    So when the file was valid and a file with the extension is then
    removed from one of the folders, the next such load is a rescan. *)
Theorem cache_file_checked_by_count w dirs :
  in_process_miss fingerprint w dirs →
  (∀ db w',
     get_covmat_database_at_paths fingerprint w dirs true = Ok (db, w') →
     (cache_files w !! fingerprint dirs = Some (Pickled db)
      ∧ count_covmat_files (listdir w) dirs = Some (length db)
      ∧ cache_files w' = cache_files w)
     ∨ (¬ cache_file_valid fingerprint w dirs
        ∧ scan_folders (listdir w) dirs [] = Ok db
        ∧ cache_files w' = <[fingerprint dirs := Pickled db]> (cache_files w)
        ∧ loaded_covmats_database w'
          = <[fingerprint dirs := db]> (loaded_covmats_database w)))
  ∧ (¬ cache_file_valid fingerprint w dirs →
     get_covmat_database_at_paths fingerprint w dirs true
     = recreate fingerprint w dirs true)
  ∧ (∀ folder_full entries filename f,
       cache_file_valid fingerprint w dirs →
       folder_full ∈ dirs →
       listdir w !! folder_full = Some entries →
       (filename, f) ∈ entries →
       Str.endswith Extension_covmat filename = true →
       ¬ cache_file_valid fingerprint (remove_file w folder_full filename) dirs
       ∧ ∃ db w',
           scan_folders (listdir (remove_file w folder_full filename)) dirs []
             = Ok db
           ∧ get_covmat_database_at_paths fingerprint
               (remove_file w folder_full filename) dirs true = Ok (db, w')
           ∧ cache_files w' !! fingerprint dirs = Some (Pickled db)).
Proof.
  intros Hmiss. split; [|split].
  - intros db w'. rewrite (load_on_miss _ _ Hmiss).
    destruct (read_cache_file fingerprint w dirs) as [l|] eqn:Hr.
    + intros [= <- <-]. left.
      apply read_cache_file_Some in Hr as [? ?]. done.
    + intros (Hs & _ & Hc & _)%recreate_inv. right.
      destruct (Hc eq_refl) as [? ?].
      split; [by apply read_cache_file_None|]. done.
  - intros Hnot%read_cache_file_None.
    by rewrite (load_on_miss _ _ Hmiss), Hnot.
  - intros folder_full entries filename f (l & Hb & Hc) Hdir Hls Hin Hext.
    set (w2 := remove_file w folder_full filename).
    assert (¬ cache_file_valid fingerprint w2 dirs) as Hnot.
    { intros (l' & Hb' & Hc'). cbn in Hb', Hc'.
      rewrite Hb in Hb'. injection Hb' as <-.
      destruct (count_after_remove_lt _ _ _ _ _ _ _ Hc Hdir Hls Hin Hext)
        as (n' & Hn' & Hlt).
      rewrite Hn' in Hc'. injection Hc' as ->. lia. }
    split; [done|].
    destruct (scan_folders_total (listdir w2) dirs []) as [db Hdb].
    { intros d Hd. cbn. apply lookup_alter_is_Some.
      by eapply count_covmat_files_listable. }
    destruct (recreate_scan fingerprint w2 dirs true db Hdb) as [w' Hw'].
    exists db, w'. split; [done|].
    assert (in_process_miss fingerprint w2 dirs) as Hmiss2 by exact Hmiss.
    rewrite (load_on_miss _ _ Hmiss2).
    apply read_cache_file_None in Hnot. rewrite Hnot. split; [done|].
    apply recreate_inv in Hw' as (_ & _ & Hc' & _).
    destruct (Hc' eq_refl) as [-> _]. by rewrite lookup_insert_eq.
Qed.

End CacheValidation.

Lemma cache_file_checked_by_count_witness :
  ∃ w', get_covmat_database_at_paths (λ _, "0")
          (remove_file second_process_world "covmats/" "b.covmat")
          ["covmats/"] true
        = Ok ([record_a], w')
        ∧ cache_files w' !! "0" = Some (Pickled [record_a]).
Proof.
  destruct (proj2 (proj2 (cache_file_checked_by_count (λ _, "0")
              second_process_world ["covmats/"] (or_introl eq_refl)))
            "covmats/"
            [("a.covmat", Text ("# x y" +:+ newline));
             ("b.covmat", Text ("# x z" +:+ newline))]
            "b.covmat" (Text ("# x z" +:+ newline)))
    as (_ & db & w' & Hscan & Hload & Hfile).
  - exists [record_a; record_b]. split; vm_compute; reflexivity.
  - apply elem_of_cons. by left.
  - vm_compute. reflexivity.
  - apply elem_of_cons. right. apply elem_of_cons. by left.
  - vm_compute. reflexivity.
  - exists w'.
    assert (db = [record_a]) as ->.
    { assert (scan_folders
                (listdir (remove_file second_process_world "covmats/" "b.covmat"))
                ["covmats/"] [] = Ok [record_a]) as Hs
        by (vm_compute; reflexivity).
      congruence. }
    done.
Defined.

(** C7, as stated, fails within one process: after a cached load has
    written the cache file (and filled the in-process map), removing a
    matrix file does not make the next cached load rescan. The load returns
    the two records it returned before, where a scan finds one, and leaves
    the state as it is. *)
Lemma cached_load_after_removal_is_not_a_rescan :
  ∃ w1,
    get_covmat_database_at_paths (λ _, "0") two_files_world ["covmats/"] true
      = Ok ([record_a; record_b], w1)
    ∧ cache_files w1 !! "0" = Some (Pickled [record_a; record_b])
    ∧ get_covmat_database_at_paths (λ _, "0")
        (remove_file w1 "covmats/" "b.covmat") ["covmats/"] true
      = Ok ([record_a; record_b], remove_file w1 "covmats/" "b.covmat")
    ∧ scan_folders (listdir (remove_file w1 "covmats/" "b.covmat"))
        ["covmats/"] [] = Ok [record_a]
    ∧ [record_a; record_b] ≠ [record_a].
Proof.
  eexists. split; [vm_compute; reflexivity|].
  repeat split; try (vm_compute; reflexivity). discriminate.
Qed.

(** The count is a proxy: with a matrix file that has no header, the cache
    file a scan wrote has one record less than there are files with the
    extension, and is taken as valid once another matrix file is removed. *)
Example cache_file_valid_by_coincidence :
  let w :=
    {| listdir :=
         {[ "covmats/" := [("a.covmat", Text ("# x y" +:+ newline));
                           ("b.covmat", Text ("# x z" +:+ newline));
                           ("c.covmat", Text ("1.0 0.0" +:+ newline))] ]};
       cache_files := {[ "0" := Pickled [record_a; record_b] ]};
       loaded_covmats_database := ∅ |} in
  scan_folders (listdir w) ["covmats/"] [] = Ok [record_a; record_b]
  ∧ read_cache_file (λ _, "0") w ["covmats/"] = None
  ∧ read_cache_file (λ _, "0") (remove_file w "covmats/" "b.covmat")
      ["covmats/"] = Some [record_a; record_b].
Proof. repeat split; vm_compute; reflexivity. Qed.

(** ** The returned record is a new object *)





Lemma copy_object_fresh h l r h' :
  copy_object h l = Some (r, h') →
  dicts h !! r = None
  ∧ ∃ d, dicts h !! l = Some d
         ∧ dicts h' = <[r := d]> (dicts h) ∧ lists h' = lists h.
Proof.
  unfold copy_object. destruct (dicts h !! l) as [d|]; [|done].
  cbn. intros [= <- <-]. split.
  - apply not_elem_of_dom, is_fresh.
  - by exists d.
Qed.

Section ObjectFacts.
Variable rng_integers : Z → nat → nat.


(** The copy is shallow: the list under ["params"] of the returned
    record is the list object of the database record, so [append] on it
    shows through the database. *)
Lemma returned_record_shares_params h l r h' d pl ps n x :
  copy_object h l = Some (r, h') →
  dicts h !! l = Some d →
  d !! "name" = Some (VStr n) →
  d !! "params" = Some (VList pl) →
  lists h !! pl = Some ps →
  (dicts h' !! r ≫= (.!! "params")) = Some (VList pl)
  ∧ read_entry (list_append h' pl x) l
    = Some (mkEntry l n (ps ++ [x])%list).
Proof.
  intros (Hfresh & d' & Hd' & Hdicts & Hlists)%copy_object_fresh Hd Hn Hp Hps.
  rewrite Hd in Hd'. injection Hd' as <-. split.
  - rewrite Hdicts, lookup_insert_eq. done.
  - unfold read_entry. cbn.
    rewrite Hdicts, lookup_insert_ne by congruence.
    rewrite Hd. cbn. rewrite Hn. cbn. rewrite Hp. cbn.
    rewrite Hlists, lookup_alter_eq, Hps. done.
Qed.

End ObjectFacts.


(** * Further properties *)

(** ** One ranking step *)

(** What a step without effect of the minimum keeps: its survivors are
    candidates of maximal score, and every candidate of that score
    survives. *)
Lemma get_best_score_spec {A} (l r : list A) (f : A → Z) (min_score : option Z) :
  get_best_score l f min_score = Ok r →
  r ≠ [] →
  ∀ c, c ∈ r →
    c ∈ l
    ∧ (∀ ms, min_score = Some ms → ms < f c)
    ∧ ∀ c', c' ∈ l → f c' ≤ f c ∧ (f c' = f c → c' ∈ r).
Proof.
  intros Hr Hne c Hc.
  destruct l as [|x l]; [by rewrite get_best_score_nil in Hr|].
  destruct (np_max_spec (f <$> x :: l)) as (mx & Hmx & Hin & Hub); [done|].
  rewrite (get_best_score_unfold _ _ _ _ Hmx) in Hr.
  assert (r = with_score f mx (x :: l) ∧ ∀ ms, min_score = Some ms → ms < mx)
    as [-> Hms].
  { destruct min_score as [ms|].
    - destruct (Z.leb_spec mx ms); [congruence|].
      split; [congruence|]. intros ? [= <-]. lia.
    - split; [congruence|]. done. }
  apply list_elem_of_filter in Hc as [Hfc Hcl].
  split; [done|]. split; [intros ms Hm; rewrite Hfc; by apply Hms|].
  intros c' Hc'. split.
  - rewrite Hfc. apply Hub, list_elem_of_fmap. eauto.
  - intros Heq. apply list_elem_of_filter. split; [congruence|done].
Qed.



(** ** What the selector optimises *)

Section Optimality.
Context {A : Type}.
Variable name_of : A → string.
Variable params_of : A → list string.
Variable params_info likelihoods_info : targets.

Local Abbreviation sp := (score_params params_of params_info).
Local Abbreviation sl := (score_likes name_of likelihoods_info).
Local Abbreviation ssp := (score_simpler_params params_of).
Local Abbreviation ssn := (score_simpler_name name_of).

Local Abbreviation survivors :=
  (survivors name_of params_of params_info likelihoods_info).

Lemma survivors_nonempty db bp bl bs bn :
  survivors db bp bl bs bn → bp ≠ [] ∧ bl ≠ [] ∧ bs ≠ [].
Proof.
  intros (Hp & Hl & Hs & Hn & Hne).
  assert (bs ≠ []) by (intros ->; by rewrite get_best_score_nil in Hn).
  assert (bl ≠ []) by (intros ->; by rewrite get_best_score_nil in Hs).
  assert (bp ≠ []) by (intros ->; by rewrite get_best_score_nil in Hl).
  done.
Qed.


(** Every last survivor is a candidate that shares a parameter and that no
    candidate outranks; two last survivors have the same four scores. *)
Lemma survivors_best db bp bl bs bn c :
  survivors db bp bl bs bn → c ∈ bn →
  c ∈ db ∧ 0 < sp c
  ∧ (∀ c', c' ∈ db →
       ranks_no_higher name_of params_of params_info likelihoods_info c' c)
  ∧ (∀ c', c' ∈ bn →
       same_rank name_of params_of params_info likelihoods_info c' c).
Proof.
  intros Hsurv Hc.
  destruct (survivors_nonempty _ _ _ _ _ Hsurv) as (Hbp & Hbl & Hbs).
  destruct Hsurv as (Hp & Hl & Hs & Hn & Hbn).
  pose proof (get_best_score_spec _ _ _ _ Hn Hbn) as Sn.
  pose proof (get_best_score_spec _ _ _ _ Hs Hbs) as Ss.
  pose proof (get_best_score_spec _ _ _ _ Hl Hbl) as Sl.
  pose proof (get_best_score_spec _ _ _ _ Hp Hbp) as Sp.
  destruct (Sn c Hc) as (Hcs & _ & Kn).
  destruct (Ss c Hcs) as (Hcl & _ & Ks).
  destruct (Sl c Hcl) as (Hcp & _ & Kl).
  destruct (Sp c Hcp) as (Hcd & Hmin & Kp).
  split; [done|]. split; [by apply Hmin|]. split.
  - intros c' Hc'. unfold ranks_no_higher. cbn zeta.
    destruct (Kp c' Hc') as [Hle1 Hin1].
    destruct (decide (sp c' = sp c)) as [E1|]; [|left; lia].
    right. split; [done|].
    destruct (Kl c' (Hin1 E1)) as [Hle2 Hin2].
    destruct (decide (sl c' = sl c)) as [E2|]; [|left; lia].
    right. split; [done|].
    destruct (Ks c' (Hin2 E2)) as [Hle3 Hin3].
    destruct (decide (ssp c' = ssp c)) as [E3|]; [|left; lia].
    right. split; [done|].
    by destruct (Kn c' (Hin3 E3)) as [Hle4 _].
  - intros c' Hc'. unfold same_rank.
    destruct (Sn c' Hc') as (Hcs' & _ & Kn').
    destruct (Ss c' Hcs') as (Hcl' & _ & Ks').
    destruct (Sl c' Hcl') as (Hcp' & _ & Kl').
    destruct (Sp c' Hcp') as (Hcd' & _ & Kp').
    destruct (Kp c' Hcd') as [? _]. destruct (Kp' c Hcd) as [? _].
    destruct (Kl c' Hcp') as [? _]. destruct (Kl' c Hcp) as [? _].
    destruct (Ks c' Hcl') as [? _]. destruct (Ks' c Hcl) as [? _].
    destruct (Kn c' Hcs') as [? _]. destruct (Kn' c Hcs) as [? _].
    repeat split; lia.
Qed.

Variable rng_integers : Z → nat → nat.

(** A selection that returns a candidate took it from the last survivors. *)
Lemma choose_Some_inv db rs entropy c :
  choose name_of params_of params_info likelihoods_info rng_integers
    db rs entropy = Ok (Some c) →
  ∃ bp bl bs bn, survivors db bp bl bs bn ∧ c ∈ bn.
Proof.
  unfold choose, narrow. destruct db as [|c0 db]; [done|].
  destruct (get_best_score (c0 :: db) sp (Some 0)) as [bp|?] eqn:Hp;
    [|by rewrite bind_Raise].
  rewrite bind_Ok. destruct bp as [|b bp]; [done|].
  destruct (get_best_score (b :: bp) sl None) as [bl|?] eqn:Hl;
    [|by rewrite !bind_Raise].
  rewrite bind_Ok.
  destruct (get_best_score bl ssp None) as [bs|?] eqn:Hs;
    [|by rewrite !bind_Raise].
  rewrite bind_Ok.
  destruct (get_best_score bs ssn None) as [bn|?] eqn:Hn;
    [|by rewrite !bind_Raise].
  rewrite bind_Ok.
  destruct (rng_choice rng_integers rs entropy (length bn)) as [i|?];
    [|by rewrite bind_Raise].
  rewrite bind_Ok. unfold getitem.
  destruct (bn !! i) as [c'|] eqn:Hi; [|done].
  rewrite bind_Ok. intros [= <-].
  assert (c' ∈ bn) as Hin by (by eapply list_elem_of_lookup_2).
  exists (b :: bp), bl, bs, bn. split; [|done].
  repeat split; try done. intros ->. by apply elem_of_nil in Hin.
Qed.


End Optimality.


Section SelectorOptimality.
Variable fingerprint : list string → string.

(** X2. A record the selector returns is a record of the loaded database
    that shares at least one parameter with the targets and that no record
    of the database outranks: none shares more parameters; of those that
    share as many, none matches more likelihoods; of those, none declares
    fewer parameters; of those, none has fewer words in its file name. *)
Theorem returned_record_is_best rng_integers w dirs pi li rs cached entropy
    c w' :
  get_best_covmat_ext fingerprint rng_integers w dirs pi li rs cached entropy
    = Ok (Some c, w') →
  ∃ db,
    get_covmat_database_at_paths fingerprint w dirs cached = Ok (db, w')
    ∧ c ∈ db
    ∧ 0 < score_params params pi c
    ∧ ∀ c', c' ∈ db → ranks_no_higher name params pi li c' c.
Proof.
  intros (db & Hload & Hch)%select_inv. exists db. split; [done|].
  apply choose_Some_inv in Hch as (bp & bl & bs & bn & Hsurv & Hc).
  destruct (survivors_best _ _ _ _ _ _ _ _ _ _ Hsurv Hc) as (? & ? & ? & _).
  done.
Qed.



End SelectorOptimality.


Lemma returned_record_is_best_witness :
  ∃ db,
    get_covmat_database_at_paths (λ _, "0") scenario_world ["covmats/"] false
      = Ok (db, scenario_world)
    ∧ record_A "covmats/" ∈ db
    ∧ 0 < score_params params scenario_params (record_A "covmats/")
    ∧ ∀ c', c' ∈ db →
        ranks_no_higher name params scenario_params scenario_likes
          c' (record_A "covmats/").
Proof.
  apply (returned_record_is_best (λ _, "0") (λ _ _, 7%nat) scenario_world
           ["covmats/"] scenario_params scenario_likes None false 11).
  vm_compute. reflexivity.
Defined.



(** ** The scan, folder by folder *)


(** Scanning a list of folders is scanning its parts one after the other. *)
Lemma scan_folders_app ls dirs1 dirs2 db0 :
  scan_folders ls (dirs1 ++ dirs2) db0
  = scan_folders ls dirs1 db0 ≫= scan_folders ls dirs2.
Proof.
  revert db0. induction dirs1 as [|d dirs1 IH]; intros db0; [done|].
  cbn [scan_folders app]. by destruct (ls !! d).
Qed.

(** ** The declared parameter names *)

Lemma char_in_app ch s t : char_in ch (s +:+ t) ↔ char_in ch s ∨ char_in ch t.
Proof.
  induction s as [|c s IH].
  - rewrite append_nil_l. cbn. naive_solver.
  - rewrite append_cons. cbn. rewrite IH. naive_solver.
Qed.

Lemma split_from_tokens cur s t :
  (∀ ch, char_in ch cur → Str.isspace ch = false) →
  t ∈ Str.split_from cur s →
  t ≠ "" ∧ ∀ ch, char_in ch t → Str.isspace ch = false.
Proof.
  revert cur. induction s as [|c s IH]; intros cur Hcur Ht; cbn in Ht.
  - destruct cur as [|c0 cur]; [by apply elem_of_nil in Ht|].
    apply list_elem_of_singleton in Ht as ->. done.
  - destruct (Str.isspace c) eqn:Hc.
    + destruct cur as [|c0 cur].
      * apply (IH ""); [by intros ? []|done].
      * apply elem_of_cons in Ht as [->|Ht]; [done|].
        apply (IH ""); [by intros ? []|done].
    + apply (IH (cur +:+ String c "")); [|done].
      intros ch [Hch|Hch]%char_in_app; [by apply Hcur|].
      destruct Hch as [->|[]]. done.
Qed.

(** X6. Every declared parameter name of every record of a scan is a
    non-empty string without any whitespace character: the names are the
    pieces [split()] cuts the header into. *)
Theorem scanned_params_are_words ls dirs db c p :
  scan_folders ls dirs [] = Ok db →
  c ∈ db →
  p ∈ params c →
  p ≠ "" ∧ ∀ ch, char_in ch p → Str.isspace ch = false.
Proof.
  intros Hscan Hc Hp.
  apply (elem_of_scan_folders _ _ _ _ _ Hscan) in Hc
    as [Hc|(_ & entries & f & _ & _ & Hps)]; [by apply elem_of_nil in Hc|].
  unfold read_params in Hps. destruct f as [|header]; [done|].
  destruct (Str.startswith "#" (Str.strip header)); [|done].
  injection Hps as Hps. rewrite <- Hps in Hp.
  apply (split_from_tokens "" (Str.lstrip_char "#" (Str.strip header)) p);
    [by intros ? []|done].
Qed.

Lemma scanned_params_are_words_witness :
  "b" ≠ "" ∧ ∀ ch, char_in ch "b" → Str.isspace ch = false.
Proof.
  apply (scanned_params_are_words scan_example ["covmats/"]
           [mkCovmat "covmats/" "good.covmat" ["a"; "b"; "c"]]
           (mkCovmat "covmats/" "good.covmat" ["a"; "b"; "c"]) "b").
  - vm_compute. reflexivity.
  - apply elem_of_cons. by left.
  - cbn. apply elem_of_cons. right. apply elem_of_cons. by left.
Defined.

(** ** Bounds on the scores *)

Lemma size_list_to_set_le (l : list string) :
  (size (list_to_set l : gset string) ≤ length l)%nat.
Proof.
  induction l as [|x l IH]; cbn [list_to_set length].
  - by rewrite size_empty.
  - rewrite size_union_alt, size_singleton.
    assert (size (list_to_set l ∖ {[x]} : gset string)
            ≤ size (list_to_set l : gset string))%nat
      by (apply subseteq_size, subseteq_difference_l; done).
    lia.
Qed.

(** X7. The parameter score of a candidate lies between 0 and both the
    number of its declared parameters and the number of target names and
    renames; it is positive exactly when a declared parameter is one of
    them. The likelihood score lies between 0 and the number of target
    likelihood names and aliases. *)
Theorem scores_are_bounded {A} (name_of : A → string)
    (params_of : A → list string) (pi li : targets) (c : A) :
  0 ≤ score_params params_of pi c ≤ Z.of_nat (length (params_of c))
  ∧ score_params params_of pi c ≤ Z.of_nat (size (alias_set pi))
  ∧ (0 < score_params params_of pi c
     ↔ ∃ p, p ∈ params_of c ∧ p ∈ alias_set pi)
  ∧ 0 ≤ score_likes name_of li c ≤ Z.of_nat (size (alias_set li)).
Proof.
  unfold score_params, score_likes, params_renames, likes_regexps,
    likes_renames.
  set (S := (list_to_set (params_of c) ∩ alias_set pi : gset string)).
  assert (size S ≤ size (list_to_set (params_of c) : gset string))%nat
    by (apply subseteq_size; set_solver).
  assert (size S ≤ size (alias_set pi))%nat
    by (apply subseteq_size; set_solver).
  pose proof (size_list_to_set_le (params_of c)).
  split; [lia|]. split; [lia|]. split.
  - split.
    + intros Hpos. destruct (size_pos_elem_of S) as [p Hp]; [lia|].
      exists p. apply elem_of_intersection in Hp as [Hp1 Hp2].
      by apply elem_of_list_to_set in Hp1.
    + intros (p & Hp1 & Hp2).
      assert (p ∈ S) as Hp
        by (apply elem_of_intersection; split;
            [by apply elem_of_list_to_set|done]).
      assert (size S ≠ O)
        by (apply size_non_empty_iff; intros He; rewrite He in Hp;
            by apply not_elem_of_empty in Hp).
      lia.
  - pose proof (length_filter
                  (λ r, Re.search r (name_of c) = true)
                  (like_regexp <$> elements (alias_set li))) as Hlen.
    rewrite length_fmap in Hlen.
    change (length (elements (alias_set li))) with (size (alias_set li))
      in Hlen.
    lia.
Qed.

(** ** The in-process map and the cache file *)

Section CacheFacts.
Variable fingerprint : list string → string.

(** A cached load files what it returns in the in-process map. *)
Lemma load_fills_map w dirs db w1 :
  get_covmat_database_at_paths fingerprint w dirs true = Ok (db, w1) →
  loaded_covmats_database w1 !! fingerprint dirs = Some db.
Proof.
  unfold get_covmat_database_at_paths. intros H1.
  destruct (loaded_covmats_database w !! fingerprint dirs)
    as [[|c cs]|] eqn:Hm.
  2:{ by injection H1 as <- <-. }
  all: destruct (read_cache_file fingerprint w dirs) as [l|] eqn:Hr.
  all: try (injection H1 as <- <-; cbn; by rewrite lookup_insert_eq).
  all: apply recreate_inv in H1 as (_ & _ & Hc & _);
       destruct (Hc eq_refl) as [_ ->]; by rewrite lookup_insert_eq.
Qed.

(** X8. Once a cached load has returned a non-empty database, every later
    cached load for the same folders returns that database and changes
    nothing, as long as the in-process entry is in place: neither the
    folders nor the cache file are looked at again. *)
Theorem loaded_database_is_kept w dirs db w1 :
  get_covmat_database_at_paths fingerprint w dirs true = Ok (db, w1) →
  db ≠ [] →
  ∀ w2, loaded_covmats_database w2 !! fingerprint dirs
        = loaded_covmats_database w1 !! fingerprint dirs →
        get_covmat_database_at_paths fingerprint w2 dirs true = Ok (db, w2).
Proof.
  intros H1 Hne w2 Hsame. apply load_fills_map in H1.
  unfold get_covmat_database_at_paths. rewrite Hsame, H1.
  by destruct db.
Qed.

Lemma length_records_of d entries :
  length (records_of d entries) = length (filter has_header entries).
Proof.
  unfold records_of. induction entries as [|[filename f] entries IH]; [done|].
  rewrite filter_cons.
  destruct (decide (has_header (filename, f))) as [[ps Hps]|Hno].
  - cbn in Hps. cbn. rewrite Hps. cbn. by rewrite IH.
  - assert (read_params f = None) as Hnone.
    { destruct (read_params f) eqn:E; [|done]. destruct Hno. by eexists. }
    cbn. rewrite Hnone. cbn. done.
Qed.

(** In one folder where every name with the extension has a header, the
    names with the extension are at most as many as the headers, and as
    many exactly when every header belongs to a name with the extension. *)
Lemma count_vs_headers (entries : list (string * file)) :
  (∀ e, e ∈ entries → is_covmat_name e → has_header e) →
  (length (filter is_covmat_name entries)
   ≤ length (filter has_header entries))%nat
  ∧ (length (filter is_covmat_name entries)
     = length (filter has_header entries)
     ↔ ∀ e, e ∈ entries → has_header e → is_covmat_name e).
Proof.
  induction entries as [|e entries IH]; intros Hall.
  - split; [done|]. split; [|done]. intros _ e He. by apply elem_of_nil in He.
  - destruct IH as [Hle Hiff].
    { intros e' He'. apply Hall, elem_of_cons. by right. }
    rewrite !filter_cons.
    destruct (decide (is_covmat_name e)) as [Hc|Hc].
    + rewrite decide_True by (apply Hall; [apply elem_of_cons; by left|done]).
      cbn. split; [lia|]. split.
      * intros Heq e' [->|He']%elem_of_cons; [done|].
        apply Hiff; [lia|done].
      * intros Hsub. f_equal. apply Hiff. intros e' He'.
        apply Hsub, elem_of_cons. by right.
    + destruct (decide (has_header e)) as [Hh|Hh]; cbn.
      * split; [lia|]. split; [lia|].
        intros Hsub. destruct Hc. apply Hsub; [apply elem_of_cons; by left|done].
      * split; [done|]. split.
        -- intros Heq e' [->|He']%elem_of_cons; [done|]. by apply Hiff.
        -- intros Hsub. apply Hiff. intros e' He'.
           apply Hsub, elem_of_cons. by right.
Qed.

Lemma count_vs_scan ls dirs db0 n db :
  count_covmat_files ls dirs = Some n →
  scan_folders ls dirs db0 = Ok db →
  (∀ d entries e, d ∈ dirs → ls !! d = Some entries → e ∈ entries →
                  is_covmat_name e → has_header e) →
  (n + length db0 ≤ length db)%nat
  ∧ ((n + length db0)%nat = length db
     ↔ ∀ d entries e, d ∈ dirs → ls !! d = Some entries → e ∈ entries →
                      has_header e → is_covmat_name e).
Proof.
  revert db0 n db. induction dirs as [|d dirs IH]; intros db0 n db Hn Hs Hall.
  - injection Hn as <-. injection Hs as <-. split; [done|].
    split; [|done]. intros _ d ? ? Hd. by apply elem_of_nil in Hd.
  - rewrite count_covmat_files_cons in Hn. cbn [scan_folders] in Hs.
    destruct (ls !! d) as [entries|] eqn:Hd; [|done]. cbn in Hn.
    destruct (count_covmat_files ls dirs) as [m|] eqn:Hm; [|done].
    injection Hn as <-.
    destruct (IH _ m db eq_refl Hs) as [Hle Hiff].
    { intros d' entries' e Hd'. apply (Hall d' entries' e), elem_of_cons.
      by right. }
    rewrite scan_folder_records, length_app, length_records_of in Hle, Hiff.
    destruct (count_vs_headers entries) as [Hle1 Hiff1].
    { intros e He. apply (Hall d entries e); [apply elem_of_cons; by left|done..]. }
    split; [lia|]. split.
    + intros Heq d' entries' e [->|Hd']%elem_of_cons Hl He.
      * rewrite Hd in Hl. injection Hl as <-. apply Hiff1; [lia|done].
      * apply (proj1 Hiff ltac:(lia) d' entries' e); done.
    + intros Hsub.
      assert (length (filter is_covmat_name entries)
              = length (filter has_header entries)) as E1.
      { apply Hiff1. intros e He. apply (Hsub d entries e);
          [apply elem_of_cons; by left|done..]. }
      assert ((m + (length db0 + length (filter has_header entries)))%nat
              = length db) as E2.
      { apply Hiff. intros d' entries' e Hd'.
        apply (Hsub d' entries' e), elem_of_cons. by right. }
      lia.
Qed.

(** X9. After a rescan has written the cache file, when every file whose
    name has the extension also has a header, a process without an
    in-process entry takes the file as valid on the unchanged folders
    exactly when every file with a header has the extension. One file
    with a header and another name (a notes file starting with [#], say)
    in a folder makes every new process rescan. *)
Theorem cache_file_valid_iff_only_matrices_have_headers w dirs db w1 :
  recreate fingerprint w dirs true = Ok (db, w1) →
  (∀ d entries e, d ∈ dirs → listdir w !! d = Some entries → e ∈ entries →
                  is_covmat_name e → has_header e) →
  read_cache_file fingerprint w1 dirs = Some db
  ↔ ∀ d entries e, d ∈ dirs → listdir w !! d = Some entries → e ∈ entries →
                   has_header e → is_covmat_name e.
Proof.
  intros (Hs & Hls & Hc & _)%recreate_inv Hall.
  destruct (Hc eq_refl) as [Hfile _].
  assert (is_Some (count_covmat_files (listdir w) dirs)) as [n Hn].
  { clear -Hs. revert Hs. generalize (@nil Covmat) as db0.
    induction dirs as [|d dirs IH]; intros db0 Hs; [by eexists|].
    rewrite count_covmat_files_cons. cbn [scan_folders] in Hs.
    destruct (listdir w !! d) as [entries|]; [|done].
    destruct (IH _ Hs) as [m ->]. by eexists. }
  destruct (count_vs_scan _ _ _ _ _ Hn Hs Hall) as [_ Hiff].
  rewrite read_cache_file_Some, Hls, Hfile, lookup_insert_eq, Hn.
  rewrite <- Hiff. cbn [length]. rewrite Nat.add_0_r. split.
  - by intros [_ [= ->]].
  - by intros ->.
Qed.

End CacheFacts.

Lemma loaded_database_is_kept_witness :
  get_covmat_database_at_paths (λ _, "0")
    (remove_file
       {| listdir := listdir two_files_world;
          cache_files := {[ "0" := Pickled [record_a; record_b] ]};
          loaded_covmats_database := {[ "0" := [record_a; record_b] ]} |}
       "covmats/" "b.covmat")
    ["covmats/"] true
  = Ok ([record_a; record_b],
        remove_file
          {| listdir := listdir two_files_world;
             cache_files := {[ "0" := Pickled [record_a; record_b] ]};
             loaded_covmats_database := {[ "0" := [record_a; record_b] ]} |}
          "covmats/" "b.covmat").
Proof.
  apply (loaded_database_is_kept (λ _, "0") two_files_world ["covmats/"]
           [record_a; record_b]
           {| listdir := listdir two_files_world;
              cache_files := {[ "0" := Pickled [record_a; record_b] ]};
              loaded_covmats_database := {[ "0" := [record_a; record_b] ]} |}).
  - vm_compute. reflexivity.
  - discriminate.
  - reflexivity.
Defined.

Lemma cache_file_valid_iff_only_matrices_have_headers_witness :
  ∃ w1,
    recreate (λ _, "0") two_files_world ["covmats/"] true
      = Ok ([record_a; record_b], w1)
    ∧ (read_cache_file (λ _, "0") w1 ["covmats/"] = Some [record_a; record_b]
       ↔ ∀ d entries e,
           d ∈ ["covmats/"] → listdir two_files_world !! d = Some entries →
           e ∈ entries → has_header e → is_covmat_name e).
Proof.
  eexists. split; [vm_compute; reflexivity|].
  apply (cache_file_valid_iff_only_matrices_have_headers (λ _, "0")
           two_files_world ["covmats/"]); [vm_compute; reflexivity|].
  intros d entries e Hd Hl He _.
  apply list_elem_of_singleton in Hd as ->.
  assert (entries = [("a.covmat", Text ("# x y" +:+ newline));
                     ("b.covmat", Text ("# x z" +:+ newline))]) as ->.
  { assert (listdir two_files_world !! "covmats/"
            = Some [("a.covmat", Text ("# x y" +:+ newline));
                    ("b.covmat", Text ("# x z" +:+ newline))]) as Hl'
      by (vm_compute; reflexivity).
    congruence. }
  repeat (apply elem_of_cons in He as [->|He]; [by eexists|]).
  by apply elem_of_nil in He.
Defined.

(** ** The package folders *)


Section PackageFacts.
Variable os_sep : ascii.
Variable path_exists : string → bool.
Variable fingerprint : list string → string.





End PackageFacts.


(** ** Cutting the matrix to the sampled parameters *)

Lemma comprehension_Ok {A B} (f : A → result B) (l : list A) (r : list B) :
  comprehension f l = Ok r ↔ Forall2 (λ x y, f x = Ok y) l r.
Proof.
  revert r. induction l as [|x l IH]; intros r; cbn [comprehension].
  - split; [intros [= <-]; constructor|by inversion 1].
  - destruct (f x) as [y|e] eqn:Hfx.
    + rewrite bind_Ok. destruct (comprehension f l) as [ys|e] eqn:Hl.
      * rewrite bind_Ok. split.
        -- intros [= <-]. constructor; [done|]. by apply IH.
        -- inversion 1 as [|? y' ? ys' Hy Hys]; subst.
           apply IH in Hys. congruence.
      * rewrite bind_Raise. split; [done|].
        inversion 1 as [|? y' ? ys' Hy Hys]; subst. by apply IH in Hys.
    + rewrite bind_Raise. split; [done|].
      inversion 1 as [|? y' ? ys' Hy Hys]; subst. congruence.
Qed.

(** A comprehension raises what its first failing element raises. *)
Lemma comprehension_Raise {A B} (f : A → result B) (l : list A) (e : exn) :
  comprehension f l = Raise e → ∃ x, x ∈ l ∧ f x = Raise e.
Proof.
  induction l as [|x l IH]; cbn [comprehension]; [done|].
  destruct (f x) as [y|e'] eqn:Hfx.
  - rewrite bind_Ok. destruct (comprehension f l) as [ys|e'']; [done|].
    rewrite bind_Raise. intros [= ->]. destruct IH as (x' & ? & ?); [done|].
    exists x'. split; [apply elem_of_cons; by right|done].
  - rewrite bind_Raise. intros [= ->]. exists x.
    split; [apply elem_of_cons; by left|done].
Qed.

Lemma comprehension_total {A B} (f : A → result B) (l : list A) :
  (∀ x, x ∈ l → ∃ y, f x = Ok y) → ∃ r, comprehension f l = Ok r.
Proof.
  induction l as [|x l IH]; intros Hall; cbn [comprehension]; [eauto|].
  destruct (Hall x) as [y ->]; [apply elem_of_cons; by left|].
  destruct IH as [r ->]; [|eauto].
  intros x' Hx'. apply Hall, elem_of_cons. by right.
Qed.

(** [index] finds the first position of a name, and raises [ValueError]
    exactly when the name is absent. *)
Lemma list_index_Ok l p i :
  list_index l p = Ok i ↔
  l !! i = Some p ∧ ∀ j, (j < i)%nat → l !! j ≠ Some p.
Proof.
  revert i. induction l as [|q l IH]; intros i; cbn [list_index].
  - split; [done|]. by intros [? _].
  - destruct (decide (q = p)) as [->|Hne].
    + split.
      * intros [= <-]. split; [done|]. lia.
      * intros [Hi Hfirst]. destruct i as [|i]; [done|].
        destruct (Hfirst O); [lia|done].
    + split.
      * intros H. destruct (list_index l p) as [k|e]; [|done].
        injection H as <-. destruct (proj1 (IH k) eq_refl) as [Hk Hfirst].
        split; [done|].
        intros [|j] Hj; cbn; [congruence|]. apply Hfirst. lia.
      * intros [Hi Hfirst]. destruct i as [|i]; [cbn in Hi; congruence|].
        assert (list_index l p = Ok i) as ->; [|done].
        apply IH. split; [done|]. intros j Hj. apply (Hfirst (S j)). lia.
Qed.

Lemma list_index_Raise l p :
  p ∉ l ↔ list_index l p = Raise ValueError.
Proof.
  induction l as [|q l IH]; cbn [list_index].
  - split; [done|]. intros _ H. by apply elem_of_nil in H.
  - rewrite not_elem_of_cons. destruct (decide (q = p)) as [->|Hne].
    + split; [by intros [? _]|done].
    + destruct (list_index l p) as [k|e] eqn:Hk; cbn.
      * split; [|done]. intros [_ Hn]. by apply IH in Hn.
      * split.
        -- intros [_ Hn]. apply IH in Hn. congruence.
        -- intros [= ->]. split; [congruence|]. by apply IH.
Qed.

Lemma list_index_total l p : p ∈ l → ∃ i, list_index l p = Ok i.
Proof.
  intros Hin. destruct (list_index l p) as [i|e] eqn:Hi; [eauto|].
  assert (e = ValueError) as ->.
  { clear Hin. revert e Hi. induction l as [|q l IH]; intros e; cbn.
    - by intros [= <-].
    - destruct (decide (q = p)); [done|].
      destruct (list_index l p); [done|]. cbn. intros [= <-]. by apply IH. }
  by apply list_index_Raise in Hi.
Qed.

Lemma getitem_Ok {A} (l : list A) (i : nat) (x : A) :
  getitem l i = Ok x ↔ l !! i = Some x.
Proof. unfold getitem. destruct (l !! i); naive_solver. Qed.

(** The cut has one row and one column per index, and its entry at
    [(i, j)] is the entry of the array at the [i]-th and [j]-th index. *)
Lemma submatrix_Ok {T} (covmat sliced : list (list T)) (indices : list nat) :
  submatrix covmat indices = Ok sliced →
  length sliced = length indices
  ∧ (∀ row, row ∈ sliced → length row = length indices)
  ∧ ∀ i j a b, indices !! i = Some a → indices !! j = Some b →
      is_Some (cell covmat a b)
      ∧ cell sliced i j = cell covmat a b.
Proof.
  unfold submatrix.
  destruct (comprehension (getitem covmat) indices) as [rows|e] eqn:Hrows;
    [|by rewrite bind_Raise].
  rewrite bind_Ok. intros Hcols.
  apply comprehension_Ok in Hrows. apply comprehension_Ok in Hcols.
  split; [|split].
  - by rewrite <- (Forall2_length _ _ _ Hcols), <- (Forall2_length _ _ _ Hrows).
  - intros row (k & Hk)%list_elem_of_lookup_1.
    destruct (Forall2_lookup_r _ _ _ _ _ Hcols Hk) as (full & _ & Hfull).
    apply comprehension_Ok in Hfull. by rewrite <- (Forall2_length _ _ _ Hfull).
  - intros i j a b Hi Hj.
    destruct (Forall2_lookup_l _ _ _ _ _ Hrows Hi) as (full & Hfi & Hfull).
    apply getitem_Ok in Hfull.
    destruct (Forall2_lookup_l _ _ _ _ _ Hcols Hfi) as (row & Hri & Hrow).
    apply comprehension_Ok in Hrow.
    destruct (Forall2_lookup_l _ _ _ _ _ Hrow Hj) as (x & Hx & Hfx).
    apply getitem_Ok in Hfx.
    unfold cell. rewrite Hfull, Hri. cbn. rewrite Hx, Hfx. eauto.
Qed.

(** The cut goes through when every index has its row and, in each chosen
    row, its entry. *)
Lemma submatrix_total {T} (covmat : list (list T)) (indices : list nat) :
  (∀ a b, a ∈ indices → b ∈ indices → is_Some (cell covmat a b)) →
  ∃ sliced, submatrix covmat indices = Ok sliced.
Proof.
  intros Hall. unfold submatrix.
  destruct (comprehension_total (getitem covmat) indices) as [rows Hrows].
  { intros a Ha. destruct (Hall a a Ha Ha) as [x Hx]. unfold cell in Hx.
    unfold getitem. destruct (covmat !! a); [eauto|done]. }
  rewrite Hrows, bind_Ok. apply comprehension_total.
  intros row (k & Hk)%list_elem_of_lookup_1.
  apply comprehension_Ok in Hrows.
  destruct (Forall2_lookup_r _ _ _ _ _ Hrows Hk) as (a & Ha & Hrow).
  apply getitem_Ok in Hrow. apply comprehension_total.
  intros b Hb. apply list_elem_of_lookup_2 in Ha.
  destruct (Hall a b Ha Hb) as [x Hx]. unfold cell in Hx.
  rewrite Hrow in Hx. cbn in Hx. exists x. by apply getitem_Ok.
Qed.

Lemma comprehension_raises {A B} (f : A → result B) (l : list A) (e : exn) x :
  (∀ x' e', f x' = Raise e' → e' = e) →
  x ∈ l → f x = Raise e → comprehension f l = Raise e.
Proof.
  intros Honly Hx Hfx. induction l as [|y l IH]; [by apply elem_of_nil in Hx|].
  cbn [comprehension]. destruct (f y) as [v|e'] eqn:Hfy.
  - rewrite bind_Ok. apply elem_of_cons in Hx as [->|Hx]; [congruence|].
    by rewrite (IH Hx), bind_Raise.
  - rewrite bind_Raise. f_equal. by eapply Honly.
Qed.

Lemma list_index_only_ValueError l p e :
  list_index l p = Raise e → e = ValueError.
Proof.
  revert e. induction l as [|q l IH]; intros e; cbn.
  - by intros [= <-].
  - destruct (decide (q = p)); [done|].
    destruct (list_index l p); [done|]. cbn. intros [= <-]. by apply IH.
Qed.

(** What a cut that goes through was made of. *)
Lemma with_covmat_inv {T} (covmat_data : Covmat) (covmat : list (list T))
    (params_in_covmat : list (string * string)) (best : BestCovmat T) :
  with_covmat covmat_data covmat params_in_covmat = Ok best →
  ∃ indices,
    Forall2 (λ p a, list_index (params covmat_data) p = Ok a)
      (params_in_covmat.*2) indices
    ∧ submatrix covmat indices = Ok (best_covmat best)
    ∧ best_folder best = folder covmat_data
    ∧ best_name best = name covmat_data
    ∧ best_params best = params_in_covmat.
Proof.
  unfold with_covmat.
  destruct (comprehension _ (params_in_covmat.*2)) as [indices|e] eqn:Hidx;
    [|by rewrite bind_Raise].
  rewrite bind_Ok.
  destruct (submatrix covmat indices) as [sliced|e] eqn:Hsub;
    [|by rewrite bind_Raise].
  rewrite bind_Ok. intros [= <-]. cbn.
  apply comprehension_Ok in Hidx. by exists indices.
Qed.

(** The cut of a symmetric array by one list of indices is symmetric. *)
Lemma submatrix_symmetric {T} (covmat sliced : list (list T))
    (indices : list nat) :
  submatrix covmat indices = Ok sliced →
  (∀ a b, cell covmat a b = cell covmat b a) →
  ∀ i j, cell sliced i j = cell sliced j i.
Proof.
  intros Hsub Hsym i j.
  destruct (submatrix_Ok _ _ _ Hsub) as (Hrows & Hcols & Hcell).
  assert (∀ i j, indices !! j = None → cell sliced i j = None) as Hcol.
  { intros i' j' Hj%lookup_ge_None. unfold cell.
    destruct (sliced !! i') as [row|] eqn:Hrow; [|done]. cbn.
    apply lookup_ge_None.
    rewrite (Hcols row) by (by eapply list_elem_of_lookup_2). done. }
  assert (∀ i j, indices !! i = None → cell sliced i j = None) as Hrow.
  { intros i' j' Hi%lookup_ge_None. unfold cell.
    by rewrite (proj2 (lookup_ge_None sliced i')) by lia. }
  destruct (indices !! i) as [a|] eqn:Hi, (indices !! j) as [b|] eqn:Hj.
  - destruct (Hcell i j a b Hi Hj) as [_ ->].
    destruct (Hcell j i b a Hj Hi) as [_ ->]. apply Hsym.
  - by rewrite (Hcol i j Hj), (Hrow j i Hj).
  - by rewrite (Hrow i j Hi), (Hcol j i Hi).
  - by rewrite (Hrow i j Hi), (Hrow j i Hj).
Qed.

(** X11. When the last step of [get_best_covmat] goes through, the dict it
    makes has the folder and the name of the chosen record and the
    translation as given; its matrix has one row and one column per
    translated parameter, in the order of the translation, and the entry
    at [(i, j)] is the entry of the file's matrix at the first positions of
    the [i]-th and [j]-th declared names in the header. *)
Theorem with_covmat_cuts {T} (covmat_data : Covmat) (covmat : list (list T))
    (params_in_covmat : list (string * string)) (best : BestCovmat T) :
  with_covmat covmat_data covmat params_in_covmat = Ok best →
  best_folder best = folder covmat_data
  ∧ best_name best = name covmat_data
  ∧ best_params best = params_in_covmat
  ∧ length (best_covmat best) = length params_in_covmat
  ∧ (∀ row, row ∈ best_covmat best → length row = length params_in_covmat)
  ∧ ∀ i j ti pi tj pj,
      params_in_covmat !! i = Some (ti, pi) →
      params_in_covmat !! j = Some (tj, pj) →
      ∃ a b,
        list_index (params covmat_data) pi = Ok a
        ∧ list_index (params covmat_data) pj = Ok b
        ∧ params covmat_data !! a = Some pi
        ∧ params covmat_data !! b = Some pj
        ∧ is_Some (cell covmat a b)
        ∧ cell (best_covmat best) i j = cell covmat a b.
Proof.
  intros (indices & Hidx & Hsub & Hf & Hn & Hp)%with_covmat_inv.
  pose proof (Forall2_length _ _ _ Hidx) as Hlen. rewrite length_fmap in Hlen.
  destruct (submatrix_Ok _ _ _ Hsub) as (Hrows & Hcols & Hcell).
  do 3 (split; [done|]). split; [congruence|].
  split; [intros row Hrow; rewrite Hlen; by apply Hcols|].
  intros i j ti pi tj pj Hi Hj.
  assert (params_in_covmat.*2 !! i = Some pi) as Hi2
    by (by rewrite list_lookup_fmap, Hi).
  assert (params_in_covmat.*2 !! j = Some pj) as Hj2
    by (by rewrite list_lookup_fmap, Hj).
  destruct (Forall2_lookup_l _ _ _ _ _ Hidx Hi2) as (a & Ha & Hia).
  destruct (Forall2_lookup_l _ _ _ _ _ Hidx Hj2) as (b & Hb & Hib).
  exists a, b. destruct (Hcell i j a b Ha Hb) as [Hsome Heq].
  pose proof (proj1 (list_index_Ok _ _ _) Hia) as [? _].
  pose proof (proj1 (list_index_Ok _ _ _) Hib) as [? _].
  done.
Qed.

(** X12. The cut of a symmetric matrix is symmetric. *)
Theorem with_covmat_keeps_symmetry {T} (covmat_data : Covmat)
    (covmat : list (list T)) (params_in_covmat : list (string * string))
    (best : BestCovmat T) :
  with_covmat covmat_data covmat params_in_covmat = Ok best →
  (∀ a b, cell covmat a b = cell covmat b a) →
  ∀ i j, cell (best_covmat best) i j = cell (best_covmat best) j i.
Proof.
  intros (indices & _ & Hsub & _)%with_covmat_inv Hsym.
  by apply (submatrix_symmetric covmat _ indices).
Qed.

(** X13. On a file whose matrix has as many rows as the header declares
    names, each row with as many entries, the last step of
    [get_best_covmat] goes through when every translated name is declared
    in the header, and raises [ValueError] as soon as one is not. *)
Theorem with_covmat_returns_iff_declared {T} (covmat_data : Covmat)
    (covmat : list (list T)) (params_in_covmat : list (string * string)) :
  length covmat = length (params covmat_data) →
  (∀ row, row ∈ covmat → length row = length (params covmat_data)) →
  ((∀ t p, (t, p) ∈ params_in_covmat → p ∈ params covmat_data) →
   ∃ best, with_covmat covmat_data covmat params_in_covmat = Ok best)
  ∧ (∀ t p, (t, p) ∈ params_in_covmat → p ∉ params covmat_data →
     with_covmat covmat_data covmat params_in_covmat = Raise ValueError).
Proof.
  intros Hn Hm. split.
  - intros Hall. unfold with_covmat.
    destruct (comprehension_total (list_index (params covmat_data))
                (params_in_covmat.*2)) as [indices Hidx].
    { intros p ([t p'] & -> & Hin)%list_elem_of_fmap.
      apply list_index_total. by eapply Hall. }
    rewrite Hidx, bind_Ok. apply comprehension_Ok in Hidx.
    assert (∀ a, a ∈ indices → (a < length (params covmat_data))%nat) as Hlt.
    { intros a (k & Hk)%list_elem_of_lookup_1.
      destruct (Forall2_lookup_r _ _ _ _ _ Hidx Hk) as (p & _ & Hp).
      apply list_index_Ok in Hp as [Hp _]. by eapply lookup_lt_Some. }
    destruct (submatrix_total covmat indices) as [sliced ->]; [|eauto].
    intros a b Ha Hb. unfold cell.
    destruct (lookup_lt_is_Some_2 covmat a) as [row Hrow];
      [rewrite Hn; by apply Hlt|].
    rewrite Hrow. cbn. apply lookup_lt_is_Some_2.
    rewrite (Hm row) by (by eapply list_elem_of_lookup_2). by apply Hlt.
  - intros t p Hin Hno. unfold with_covmat.
    rewrite (comprehension_raises (list_index (params covmat_data))
               (params_in_covmat.*2) ValueError p).
    + done.
    + intros ? ?. apply list_index_only_ValueError.
    + apply list_elem_of_fmap. by exists (t, p).
    + by apply list_index_Raise.
Qed.

Lemma example_with_covmat :
  with_covmat example_covmat_data example_matrix example_translation
  = Ok example_best.
Proof. vm_compute. reflexivity. Defined.

Lemma with_covmat_cuts_witness :
  length (best_covmat example_best) = length example_translation
  ∧ ∃ a b, list_index (params example_covmat_data) "c" = Ok a
           ∧ list_index (params example_covmat_data) "a" = Ok b
           ∧ cell (best_covmat example_best) 0 1 = cell example_matrix a b.
Proof.
  destruct (with_covmat_cuts _ _ _ _ example_with_covmat)
    as (_ & _ & _ & Hlen & _ & Hcell).
  split; [exact Hlen|].
  destruct (Hcell 0%nat 1%nat "c" "c" "x" "a" eq_refl eq_refl)
    as (a & b & Ha & Hb & _ & _ & _ & Heq).
  by exists a, b.
Defined.

Lemma with_covmat_keeps_symmetry_witness :
  cell (best_covmat example_best) 0 1 = cell (best_covmat example_best) 1 0.
Proof.
  apply (with_covmat_keeps_symmetry _ _ _ _ example_with_covmat).
  intros [|[|[|a]]] [|[|[|b]]]; reflexivity.
Defined.

Lemma with_covmat_returns_iff_declared_witness :
  (∃ best, with_covmat example_covmat_data example_matrix
             example_translation = Ok best)
  ∧ with_covmat example_covmat_data example_matrix [("x", "omegak")]
    = Raise ValueError.
Proof.
  assert (∀ row, row ∈ example_matrix →
                 length row = length (params example_covmat_data)) as Hrows.
  { intros row Hrow.
    repeat (apply elem_of_cons in Hrow as [->|Hrow]; [reflexivity|]).
    by apply elem_of_nil in Hrow. }
  split.
  - apply (with_covmat_returns_iff_declared example_covmat_data example_matrix
             example_translation eq_refl Hrows).
    intros t p Hin.
    repeat (apply elem_of_cons in Hin as [[= -> ->]|Hin];
            [cbn; repeat constructor|]).
    by apply elem_of_nil in Hin.
  - apply (proj2 (with_covmat_returns_iff_declared example_covmat_data
                    example_matrix [("x", "omegak")] eq_refl Hrows)
             "x" "omegak").
    + apply elem_of_cons. by left.
    + cbn. intros Hin.
      repeat (apply elem_of_cons in Hin as [[=]|Hin]).
      by apply elem_of_nil in Hin.
Defined.

(** ** [get_best_covmat], from the path to the matrix *)

Section BestCovmatFacts.
Context {T Info : Type}.
Variable os_sep : ascii.
Variable path_exists : string → bool.
Variable fingerprint : list string → string.
Variable rng_integers : Z → nat → nat.
Variable info_packages_path : Info → option string.
Variable update_info : Info → result (targets * targets).
Variable get_translated_params : targets → list string → list (string * string).
Variable loadtxt : string → string → result (list (list T)).

Local Abbreviation best_covmat_of :=
  (get_best_covmat os_sep path_exists fingerprint rng_integers
     info_packages_path update_info get_translated_params loadtxt).

(** X14. When [get_best_covmat] returns a dict, a package path was given
    (as the argument or, failing that, in [info]), and the dict is the cut
    of the matrix read from the file of a record of the loaded database
    that shares a sampled parameter and that no record outranks; the state
    is the one the load of the database left. *)
Theorem get_best_covmat_returns_cut_of_best w info packages_path cached
    random_state entropy best w' :
  get_best_covmat os_sep path_exists fingerprint rng_integers
    info_packages_path update_info get_translated_params loadtxt
    w info packages_path cached random_state entropy = inr (Some best, w') →
  ∃ path sampled likes db c covmat,
    or_else packages_path (info_packages_path info) = Some path
    ∧ path ≠ ""
    ∧ update_info info = Ok (sampled, likes)
    ∧ get_covmat_database os_sep path_exists fingerprint w path cached
      = Ok (db, w')
    ∧ c ∈ db
    ∧ 0 < score_params params sampled c
    ∧ (∀ c', c' ∈ db → ranks_no_higher name params sampled likes c' c)
    ∧ loadtxt (folder c) (name c) = Ok covmat
    ∧ with_covmat c covmat (get_translated_params sampled (params c))
      = Ok best.
Proof.
  unfold get_best_covmat, lift.
  destruct (or_else packages_path (info_packages_path info))
    as [[|ch path]|] eqn:Hpath; [done| |done].
  destruct (update_info info) as [[sampled likes]|e]; [|done].
  destruct (get_best_covmat_ext _ _ _ _ _ _ _ _ _) as [[[c|] w0]|e] eqn:Hsel;
    [|done..].
  destruct (loadtxt (folder c) (name c)) as [covmat|e] eqn:Hload; [|done].
  destruct (with_covmat c covmat _) as [b|e] eqn:Hcut; [|done].
  intros [= <- <-].
  apply select_inv in Hsel as (db & Hdb & Hch).
  apply choose_Some_inv in Hch as (bp & bl & bs & bn & Hsurv & Hc).
  destruct (survivors_best _ _ _ _ _ _ _ _ _ _ Hsurv Hc)
    as (Hin & Hpos & Hbest & _).
  exists (String ch path), sampled, likes, db, c, covmat.
  repeat split; done.
Qed.

(** X15. [get_best_covmat] raises its [LoggedError] exactly when neither
    the argument nor [info] gives a non-empty package path, whatever else
    it is given; and it returns [None] exactly when a path is given,
    [update_info] goes through and the selector returns [None]. *)
Theorem get_best_covmat_without_result w info packages_path cached
    random_state entropy :
  (get_best_covmat os_sep path_exists fingerprint rng_integers
     info_packages_path update_info get_translated_params loadtxt
     w info packages_path cached random_state entropy = inl LoggedError
   ↔ (packages_path = None ∨ packages_path = Some "")
     ∧ (info_packages_path info = None ∨ info_packages_path info = Some ""))
  ∧ ∀ w',
      get_best_covmat os_sep path_exists fingerprint rng_integers
        info_packages_path update_info get_translated_params loadtxt
        w info packages_path cached random_state entropy = inr (None, w')
      ↔ ∃ path sampled likes,
          or_else packages_path (info_packages_path info) = Some path
          ∧ path ≠ ""
          ∧ update_info info = Ok (sampled, likes)
          ∧ get_best_covmat_ext fingerprint rng_integers w
              (get_covmat_package_folders os_sep path_exists path)
              sampled likes random_state cached entropy = Ok (None, w').
Proof.
  unfold get_best_covmat, lift. split.
  - unfold or_else.
    destruct packages_path as [[|ch path]|],
             (info_packages_path info) as [[|ch' path']|];
      (split; [intros Hres|intros [[?|?] [?|?]]; done]);
      try (split; auto; done);
      exfalso; repeat case_match; done.
  - intros w'.
    destruct (or_else packages_path (info_packages_path info))
      as [[|ch path]|] eqn:Hpath.
    + split; [done|]. by intros (? & ? & ? & [= <-] & ? & _).
    + destruct (update_info info) as [[sampled likes]|e].
      * destruct (get_best_covmat_ext _ _ _ _ _ _ _ _ _)
          as [[[c|] w0]|e] eqn:Hsel.
        -- split.
           ++ destruct (loadtxt (folder c) (name c)) as [covmat|e]; [|done].
              by destruct (with_covmat c covmat _).
           ++ intros (? & ? & ? & [= <-] & _ & [= <- <-] & Hs). congruence.
        -- split.
           ++ intros [= <-]. by exists (String ch path), sampled, likes.
           ++ intros (? & ? & ? & [= <-] & _ & [= <- <-] & Hs). congruence.
        -- split; [done|].
           intros (? & ? & ? & [= <-] & _ & [= <- <-] & Hs). congruence.
      * split; [done|]. by intros (? & ? & ? & _ & _ & [=] & _).
    + split; [done|]. by intros (? & ? & ? & [=] & _).
Qed.

End BestCovmatFacts.

Lemma get_best_covmat_returns_cut_of_best_witness :
  ∃ db c,
    get_covmat_database "/"
      (λ p, bool_decide (is_Some (listdir packages_world !! p))) (λ _, "0")
      packages_world "pkg" false = Ok (db, packages_world)
    ∧ c ∈ db
    ∧ with_covmat c [[1; 2]; [2; 4]] [("y", "y")]
      = Ok (mkBestCovmat "pkg/data/planck_supp_data_and_covmats/covmats/"
              "base.covmat" [("y", "y")] [[4]]).
Proof.
  destruct (get_best_covmat_returns_cut_of_best (T := Z) (Info := unit) "/"
              (λ p, bool_decide (is_Some (listdir packages_world !! p)))
              (λ _, "0") (λ _ _, 7%nat) (λ _, Some "pkg")
              (λ _, Ok (scenario_params, scenario_likes))
              (λ _ _, [("y", "y")]) (λ _ _, Ok [[1; 2]; [2; 4]])
              packages_world tt None false None 11
              (mkBestCovmat "pkg/data/planck_supp_data_and_covmats/covmats/"
                 "base.covmat" [("y", "y")] [[4]])
              packages_world)
    as (path & sampled & likes & db & c & covmat
        & Hpath & _ & _ & Hdb & Hc & _ & _ & Hload & Hcut).
  - vm_compute. reflexivity.
  - injection Hpath as <-. injection Hload as <-. by exists db, c.
Defined.

(** ** The helpers of [grid_tables] *)

Lemma append_assoc (s t u : string) : (s +:+ t) +:+ u = s +:+ (t +:+ u).
Proof. induction s as [|c s IH]; [done|]. by rewrite !append_cons, IH. Qed.

Lemma append_inj_l (s a b : string) : s +:+ a = s +:+ b → a = b.
Proof.
  induction s as [|c s IH]; [done|]. rewrite !append_cons.
  intros [= H]. by apply IH.
Qed.

Lemma length_append (s t : string) :
  String.length (s +:+ t) = (String.length s + String.length t)%nat.
Proof. induction s as [|c s IH]; [done|]. rewrite append_cons. cbn. by rewrite IH. Qed.

Lemma texEscapeText_app (s t : string) :
  texEscapeText (s +:+ t) = texEscapeText s +:+ texEscapeText t.
Proof.
  induction s as [|c s IH]; [done|]. rewrite append_cons. cbn.
  destruct (Ascii.eqb c "_").
  - by rewrite IH, append_assoc.
  - by rewrite IH, append_cons.
Qed.

(** X16. The escaped text never contains an underscore; it is the text
    itself exactly when the text has none; and escaping goes through
    concatenation, so escaping the pieces of a name and joining them is
    escaping the name. *)
Theorem texEscapeText_removes_underscores (s t : string) :
  ¬ char_in "_" (texEscapeText s)
  ∧ (texEscapeText s = s ↔ ¬ char_in "_" s)
  ∧ texEscapeText (s +:+ t) = texEscapeText s +:+ texEscapeText t.
Proof.
  split; [|split; [|apply texEscapeText_app]].
  - induction s as [|c s IH]; [by intros []|]. cbn.
    destruct (Ascii.eqb_spec c "_") as [->|Hne].
    + rewrite char_in_app. intros [Hin|Hin]; [|done].
      cbn in Hin. repeat (destruct Hin as [Hin|Hin]; [discriminate|]). done.
    + cbn. intros [Heq|Hin]; [congruence|done].
  - induction s as [|c s IH]; [by split; [intros _ []|]|]. cbn.
    destruct (Ascii.eqb_spec c "_") as [->|Hne].
    + split; [by intros [=]|]. intros Hno. destruct Hno. by left.
    + split.
      * intros [= Heq]. apply IH in Heq. intros [?|?]; [congruence|done].
      * intros Hno. f_equal. apply IH. intros Hin. apply Hno. by right.
Qed.

Lemma last4_app (s t : string) :
  (4 ≤ String.length t)%nat → last4 (s +:+ t) = last4 t.
Proof.
  intros Ht. unfold last4. induction s as [|c s IH]; [done|].
  rewrite append_cons. cbn [String.length].
  pose proof (length_append s t).
  replace (S (String.length (s +:+ t)) - 4)%nat
    with (S (String.length (s +:+ t) - 4)) by lia.
  cbn [substring]. exact IH.
Qed.

(** X17. The name of the file written for a limit always has [.tex] as its
    last four characters, whatever the name asked for; and naming is
    idempotent: asking (without [--all_limits]) for the name of a file
    that was written gives that name. *)
Theorem outfile_ends_in_tex (latex_filename : string) (all_limits : bool)
    (limit limit' : Z) :
  last4 (outfile_of latex_filename all_limits limit) = ".tex"
  ∧ outfile_of (outfile_of latex_filename all_limits limit) false limit'
    = outfile_of latex_filename all_limits limit.
Proof.
  assert (∀ f l, last4 (outfile_of f all_limits l) = ".tex") as Hlast.
  { intros f l. unfold outfile_of.
    destruct (String.eqb_spec
                (last4 (if all_limits then f +:+ "_limit" +:+ pretty l else f))
                ".tex") as [Heq|Hne]; cbn [negb].
    - exact Heq.
    - by apply last4_app. }
  split; [apply Hlast|].
  unfold outfile_of at 1. rewrite Hlast. by rewrite String.eqb_refl.
Qed.

(** X18. With [--all_limits] the files written are the name asked for
    followed by [_limit1.tex], [_limit2.tex] and [_limit3.tex], also when
    that name already ends in [.tex]; the three names are different, so
    no table overwrites another. *)
Theorem all_limits_outfiles (latex_filename : string) (limit : Z) :
  outfile_of latex_filename true <$> limits_of true limit
  = [latex_filename +:+ "_limit1.tex"; latex_filename +:+ "_limit2.tex";
     latex_filename +:+ "_limit3.tex"]
  ∧ NoDup (outfile_of latex_filename true <$> limits_of true limit).
Proof.
  assert (∀ d, last4 (latex_filename +:+ "_limit" +:+ d) = last4 ("_limit" +:+ d))
    as Hlast.
  { intros d. apply last4_app. rewrite length_append. cbn. lia. }
  assert (outfile_of latex_filename true <$> limits_of true limit
          = [latex_filename +:+ "_limit1.tex"; latex_filename +:+ "_limit2.tex";
             latex_filename +:+ "_limit3.tex"]) as Heq.
  { unfold limits_of, outfile_of. cbn [fmap list_fmap].
    change (pretty 1) with "1". change (pretty 2) with "2".
    change (pretty 3) with "3".
    rewrite !Hlast.
    change (negb (last4 ("_limit" +:+ "1") =? ".tex")%string) with true.
    change (negb (last4 ("_limit" +:+ "2") =? ".tex")%string) with true.
    change (negb (last4 ("_limit" +:+ "3") =? ".tex")%string) with true.
    cbv iota. rewrite !append_assoc. reflexivity. }
  split; [exact Heq|]. rewrite Heq.
  repeat (apply NoDup_cons; split;
          [rewrite ?elem_of_cons, elem_of_nil;
           intros Hin; repeat destruct Hin as [Hin|Hin];
           try done; by apply append_inj_l in Hin|]).
  apply NoDup_nil_2.
Qed.
